(** * fly login: the interactive token-acquisition flow

    A shallow embedding of [commands/login.go]: the [login] command of the
    fly command-line client.  [Execute] either performs a password grant or
    starts a callback listener and a terminal reader as goroutines and
    selects over their channels ([authCodeGrant]).

    The file is organised as follows.
    - [GoStrings]: Go strings as byte strings, [strings.SplitN],
      [strings.Join], decimal rendering of a port.
    - [Fmt]: the part of Go's [fmt] scanner that [fmt.Scanf("%s %s", ..)]
      runs, over the runes read from standard input.
    - [Login]: the goroutines of [login.go] as a transition system whose
      labels are the scheduler's choices, with unbuffered channels as
      rendezvous steps.
    - [Predicates]: the predicates and invariants of the statements.
    - [GoStringsFacts], [FmtFacts], [Utf8Facts], [LoginFacts]: lemmas.
    - The properties of the flow. *)

From Stdlib Require Import List String Ascii Bool ZArith Lia PeanoNat.
From Stdlib Require Import DecimalString.
Import ListNotations.

Local Open Scope string_scope.

(* ================================================================= *)
(** ** Go strings *)

Module GoStrings.

(** The line feed, ["\n"]. *)
Definition LF : ascii := ascii_of_nat 10.
Definition nl : string := String LF EmptyString.

(** [strings.Index(s, sep)]: the position of the first occurrence of [sep]
    in [s], if any. *)
Fixpoint Index (s sep : string) : option nat :=
  if String.prefix sep s then Some 0
  else match s with
       | EmptyString => None
       | String _ s' => option_map S (Index s' sep)
       end.

(** The slices [s[:m]] and [s[m:]]. *)
Definition slice_to (s : string) (m : nat) : string := String.substring 0 m s.
Definition slice_from (s : string) (m : nat) : string :=
  String.substring m (String.length s - m) s.

(** The loop of [genSplit]: [i < n] iterations are left; each one cuts the
    text before the next separator off [s]. *)
Fixpoint genSplit_loop (s sep : string) (n : nat) : list string :=
  match n with
  | O => [s]
  | S n' =>
      match Index s sep with
      | None => [s]
      | Some m =>
          slice_to s m :: genSplit_loop (slice_from s (m + String.length sep)) sep n'
      end
  end.

(** [strings.SplitN(s, sep, n)] for a non-empty separator and [n > 0]
    (the only use in [login.go] is [SplitN(tokenStr, " ", 2)]):
    [genSplit(s, sep, 0, n)] caps [n] at [len(s)+1], then cuts at most
    [n-1] times and puts the remainder last.  [n = 0] returns nil. *)
Definition SplitN (s sep : string) (n : nat) : list string :=
  match Nat.min n (String.length s + 1) with
  | O => []
  | S k => genSplit_loop s sep k
  end.

(** [strings.Join(a, sep)]. *)
Fixpoint Join (a : list string) (sep : string) : string :=
  match a with
  | [] => ""
  | [x] => x
  | x :: rest => x ++ sep ++ Join rest sep
  end.

(** The decimal text of a port number, as [net.SplitHostPort] returns it
    for the address of a TCP listener. *)
Definition decimal (n : N) : string := NilZero.string_of_uint (N.to_uint n).

End GoStrings.

(* ================================================================= *)
(** ** The scanner behind [fmt.Scanf("%s %s", &tokenType, &tokenValue)] *)

Module Fmt.
Import GoStrings.

Local Open Scope Z_scope.

(** A rune is an [int32]; standard input is modelled by the runes that the
    scanner's [ReadRune] decodes from it, in order, followed by end of
    file. *)
Definition rune := Z.
Definition is_rune (r : rune) : bool := (- 2 ^ 31 <=? r) && (r <? 2 ^ 31).

(** A Go [error], by its message. *)
Definition error := string.
Definition io_EOF : error := "EOF"%string.

Definition NL : rune := 10.
Definition CR : rune := 13.

(** The table [space] of [fmt/scan.go] and the loop of [isSpace] over it. *)
Definition space : list (Z * Z) :=
  [ (0x0009, 0x000d); (0x0020, 0x0020); (0x0085, 0x0085); (0x00a0, 0x00a0);
    (0x1680, 0x1680); (0x2000, 0x200a); (0x2028, 0x2029); (0x202f, 0x202f);
    (0x205f, 0x205f); (0x3000, 0x3000) ].

Fixpoint isSpace_loop (rx : Z) (tbl : list (Z * Z)) : bool :=
  match tbl with
  | [] => false
  | (lo, hi) :: tbl' =>
      if rx <? lo then false
      else if rx <=? hi then true
      else isSpace_loop rx tbl'
  end.

Definition isSpace (r : rune) : bool :=
  if r >=? 2 ^ 16 then false else isSpace_loop (r mod 2 ^ 16) space.

Definition notSpace (r : rune) : bool := negb (isSpace r).

(** *** [utf8.EncodeRune], which [buffer.writeRune] uses to store a rune
    of the token *)

Definition byte (x : Z) : Z := Z.land x 255.

Definition ascii_of_byte (b : Z) : ascii :=
  Ascii (Z.testbit b 0) (Z.testbit b 1) (Z.testbit b 2) (Z.testbit b 3)
        (Z.testbit b 4) (Z.testbit b 5) (Z.testbit b 6) (Z.testbit b 7).

Definition rune1Max := 0x7F.
Definition rune2Max := 0x7FF.
Definition rune3Max := 0xFFFF.
Definition MaxRune := 0x10FFFF.
Definition RuneError := 0xFFFD.
Definition surrogateMin := 0xD800.
Definition surrogateMax := 0xDFFF.
Definition tx := 0x80.
Definition t2 := 0xC0.
Definition t3 := 0xE0.
Definition t4 := 0xF0.
Definition maskx := 0x3F.

Definition encode3 (r : rune) : list Z :=
  [ Z.lor t3 (byte (Z.shiftr r 12));
    Z.lor tx (Z.land (byte (Z.shiftr r 6)) maskx);
    Z.lor tx (Z.land (byte r) maskx) ].

Definition EncodeRune (r : rune) : list Z :=
  let i := r mod 2 ^ 32 in
  if i <=? rune1Max then [ byte r ]
  else if i <=? rune2Max then
    [ Z.lor t2 (byte (Z.shiftr r 6)); Z.lor tx (Z.land (byte r) maskx) ]
  else if (i >? MaxRune) || ((surrogateMin <=? i) && (i <=? surrogateMax)) then
    encode3 RuneError
  else if i <=? rune3Max then encode3 r
  else
    [ Z.lor t4 (byte (Z.shiftr r 18));
      Z.lor tx (Z.land (byte (Z.shiftr r 12)) maskx);
      Z.lor tx (Z.land (byte (Z.shiftr r 6)) maskx);
      Z.lor tx (Z.land (byte r) maskx) ].

Fixpoint string_of_bytes (bs : list Z) : string :=
  match bs with
  | [] => EmptyString
  | b :: bs' => String (ascii_of_byte b) (string_of_bytes bs')
  end.

(** [buf.writeRune(r)] *)
Definition writeRune (buf : string) (r : rune) : string :=
  (buf ++ string_of_bytes (EncodeRune r))%string.

(** The text of a sequence of runes. *)
Definition string_of_runes (rs : list rune) : string :=
  fold_left writeRune rs EmptyString.

(** *** The scan state

    [os.Stdin] has no [UnreadRune], so the scanner wraps it in a [readRune]
    with one slot of look-ahead.  [input] lists the runes that [getRune]
    will return next; [unread] tells that the first of them sits in the
    look-ahead slot: it has left the file and is lost when the scan state
    is freed at the end of [Fscanf]. *)
Record ss := mk_ss { input : list rune; unread : bool }.

(** What [os.Stdin] still holds once the scan state is freed. *)
Definition remaining (s : ss) : list rune :=
  if unread s then tl (input s) else input s.

(** A scanner routine either returns or panics with an error that
    [errorHandler] recovers. *)
Inductive outcome (A : Type) : Type :=
| Done (a : A) (s : ss)
| Panic (e : error) (s : ss).
Arguments Done {A} a s.
Arguments Panic {A} e s.

(** [s.peek("\n")]: look at the next rune without consuming it. *)
Definition peek_nl (l : list rune) : bool :=
  match l with
  | [] => false
  | r :: _ => r =? NL
  end.

(** [ss.SkipSpace] with [nlIsSpace = false]. *)
Fixpoint SkipSpace (l : list rune) : outcome unit :=
  match l with
  | [] => Done tt (mk_ss [] false)
  | r :: l' =>
      if (r =? CR) && peek_nl l' then SkipSpace l'
      else if r =? NL then Panic "unexpected newline"%string (mk_ss l' false)
      else if negb (isSpace r) then Done tt (mk_ss l true)
      else SkipSpace l'
  end.

(** [ss.notEOF]: panics with [io.EOF] when no rune is left.  (Which
    end-of-file error the caller gets, [io.EOF] or [io.ErrUnexpectedEOF],
    plays no part below: only that there is an error.) *)
Definition notEOF (l : list rune) : outcome unit :=
  match l with
  | [] => Panic io_EOF (mk_ss [] false)
  | _ :: _ => Done tt (mk_ss l true)
  end.

(** The loop of [ss.token]: runes are stored while [f] accepts them. *)
Fixpoint token_loop (f : rune -> bool) (l : list rune) (buf : string)
  : outcome string :=
  match l with
  | [] => Done buf (mk_ss [] false)
  | r :: l' =>
      if f r then token_loop f l' (writeRune buf r)
      else Done buf (mk_ss l true)
  end.

(** [s.token(true, f)] *)
Definition token (f : rune -> bool) (l : list rune) : outcome string :=
  match SkipSpace l with
  | Panic e s => Panic e s
  | Done _ s => token_loop f (input s) EmptyString
  end.

(** [s.convertString('s')], which [scanOne] runs for a [*string]. *)
Definition convertString (l : list rune) : outcome string :=
  match SkipSpace l with
  | Panic e s => Panic e s
  | Done _ s =>
      match notEOF (input s) with
      | Panic e s => Panic e s
      | Done _ s => token notSpace (input s)
      end
  end.

(** [s.advance(" %s")]: the space of the format, alone and not after a
    newline, matches one or more spaces or the end of input; [advance]
    stops at the [%]. *)
Fixpoint advance_spaces (l : list rune) : ss :=
  match l with
  | [] => mk_ss [] false
  | r :: l' =>
      if isSpace r && negb (r =? NL) then advance_spaces l'
      else mk_ss l true
  end.

Definition advance (l : list rune) : outcome unit :=
  match l with
  | [] => Done tt (mk_ss [] false)
  | r :: l' =>
      if negb (isSpace r) then
        Panic "expected space in input to match format"%string (mk_ss l' false)
      else if r =? NL then
        Panic "newline in input does not match format"%string (mk_ss l' false)
      else Done tt (advance_spaces l)
  end.

(** What [fmt.Scanf] hands back: the number of items parsed, the error,
    the two operands and what is left on standard input. *)
Record ScanResult := mk_scan {
  count : nat;
  err : option error;
  arg0 : string;
  arg1 : string;
  rest : list rune
}.

(** One verb of [doScanf]: skip spaces, then [scanOne]. *)
Definition scan_verb (l : list rune) : outcome string :=
  match SkipSpace l with
  | Panic e s => Panic e s
  | Done _ s => convertString (input s)
  end.

(** [fmt.Scanf("%s %s", &a0, &a1)] on standard input [stdin]: [doScanf]
    runs the first verb, [advance] over the space, the second verb; both
    operands are used, so no operand error arises. *)
Definition Scanf (stdin : list rune) : ScanResult :=
  match scan_verb stdin with
  | Panic e s => mk_scan 0 (Some e) EmptyString EmptyString (remaining s)
  | Done a0 s =>
      match advance (input s) with
      | Panic e s => mk_scan 1 (Some e) a0 EmptyString (remaining s)
      | Done _ s =>
          match scan_verb (input s) with
          | Panic e s => mk_scan 1 (Some e) a0 EmptyString (remaining s)
          | Done a1 s => mk_scan 2 None a0 a1 (remaining s)
          end
      end
  end.

(** The runes of an ASCII text, for examples. *)
Fixpoint runes_of_string (s : string) : list rune :=
  match s with
  | EmptyString => []
  | String c s' => Z.of_N (N_of_ascii c) :: runes_of_string s'
  end.

End Fmt.

(* ================================================================= *)
(** ** [commands/login.go] *)

Module Login.
Import GoStrings Fmt.

(** *** Data *)

(** The flags of the command ([LoginCommand]). *)
Record LoginCommand := {
  ATCURL : string;
  Insecure : bool;
  Username : string;
  Password : string;
  TeamName : string;
  CACert : string
}.

(** What [client.PasswordGrant] returns ([atc.AuthToken]'s two fields
    that the command reads). *)
Record AuthToken := { TokenType : string; AccessToken : string }.

(** [rc.TargetToken] *)
Record TargetToken := { Type_ : string; Value : string }.

(** A result with a Go [error]. *)
Inductive result (A : Type) : Type :=
| Ok (a : A)
| Err (e : error).
Arguments Ok {A} a.
Arguments Err {A} e.

(** An [rc.Target], by what the command asks of it: [Client().URL()],
    [Team().Name()], [CACert()], [ValidateWithWarningOnly()] and
    [Client().PasswordGrant(username, password)]. *)
Record Target := {
  URL : string;
  Team_Name : string;
  Target_CACert : string;
  ValidateWithWarningOnly : option error;
  PasswordGrant : string -> string -> result AuthToken
}.

(** The environment of one run: the global flags [Fly.Target] and
    [Fly.Verbose], the command and its positional arguments, and the
    answers of the collaborators outside [login.go] (file system, [rc]
    package, [atc.DefaultTeamName], the operating system's listener and
    standard input). *)
Record World := {
  Fly_Target : string;
  Fly_Verbose : bool;
  command : LoginCommand;
  args : list string;
  DefaultTeamName : string;
  ReadFile : string -> result string;
  NewUnauthenticatedTarget :
    string -> string -> string -> bool -> string -> bool -> result Target;
  LoadTargetWithInsecure :
    string -> string -> bool -> string -> bool -> result Target;
  SaveTarget :
    string -> string -> bool -> string -> TargetToken -> string -> option error;
  (** [net.Listen("tcp", "127.0.0.1:0")]: the port that the operating
      system assigned, or the bind error *)
  net_Listen : result N;
  os_Stdin : list rune
}.

(** An incoming HTTP request, by its form values. *)
Record Request := { Form : list (string * string) }.

(** [r.FormValue(key)]: the first value for [key], the empty string when
    there is none. *)
Fixpoint FormValue_in (form : list (string * string)) (key : string) : string :=
  match form with
  | [] => ""
  | (k, v) :: form' => if String.eqb k key then v else FormValue_in form' key
  end.
Definition FormValue (r : Request) (key : string) : string :=
  FormValue_in (Form r) key.

(** The reply that [http.Redirect(w, r, url, code)] writes. *)
Record Response := { StatusCode : nat; Location : string }.
Definition StatusTemporaryRedirect : nat := 307.

Inductive goroutine := listenForTokenCallback | waitForTokenInput.
Inductive channel := tokenChannel | stdinChannel | errorChannel | portChannel.

(** The effects of a run, in the order in which they happen. *)
Inductive Event :=
| Stdout (text : string)
| CallReadFile (path : string)
| CallPasswordGrant (username password : string)
| Go (g : goroutine)
| CallListen (addr : string)
| Recv (c : channel) (msg : string)
| CallSaveTarget (name url : string) (insecure : bool) (team : string)
                 (token : TargetToken) (caCert : string)
| CallRedirect (url : string) (code : nat).

(** *** Control points of the goroutines *)

(** The main goroutine, inside [Execute]. *)
Inductive MainPC :=
| MStart
| MWaitPort (target : Target)
    (** blocked in [port := <-portChannel] *)
| MGotPort (target : Target) (port : string)
| MSelect (target : Target)
    (** blocked in the [select] *)
| MGotToken (target : Target) (tokenStr : string)
    (** [tokenStr] assigned by a case of the [select] *)
| MGranted (target : Target) (tokenType tokenValue : string)
    (** the grant returned a nil error *)
| MReturned (err : option error)
    (** [Execute] returned *)
| MPanicked (msg : string).

(** The goroutine of [listenForTokenCallback]. *)
Inductive ListenerPC :=
| LStart (targetUrl : string)
| LSendPort (targetUrl : string) (port : string)
    (** blocked in [portChannel <- port] *)
| LServing (targetUrl : string)
    (** inside [srv.Serve] *)
| LSendError (e : error)
    (** blocked in [errorChannel <- err] *)
| LReturned.

(** A goroutine of the server running the handler for one request. *)
Inductive HandlerPC :=
| HSend (targetUrl : string) (token : string)
    (** blocked in [tokenChannel <- r.FormValue("token")] *)
| HRedirect (targetUrl : string)
| HDone (resp : Response).

(** The goroutine of [waitForTokenInput]. *)
Inductive ReaderPC :=
| RLoop
    (** at the head of the [for] loop *)
| RSendToken (tokenStr : string)
    (** blocked in [tokenChannel <- tokenType + " " + tokenValue] *)
| RSendError (e : error)
    (** blocked in [errorChannel <- err] *)
| RReturned.

Record State := mk_state {
  main : MainPC;
  listener : option ListenerPC;
  reader : option ReaderPC;
  handlers : list HandlerPC;
  stdin : list rune;
  trace : list Event
}.

Definition init (w : World) : State :=
  mk_state MStart None None [] (os_Stdin w) [].

(** *** The sequential pieces *)

Definition nonempty (s : string) : bool := negb (String.eqb s "").

(** [Execute], from its entry to the choice of the grant: the target
    name, the CA certificate, the target, the positional arguments and the
    validation.  Returns the effects so far and the target, or the error
    that [Execute] returns. *)
Definition resolve (w : World) : list Event * result Target :=
  let c := command w in
  if negb (nonempty (Fly_Target w)) then
    ([], Err "name for the target must be specified (--target/-t)")
  else
    let '(ev1, caCert) :=
      if nonempty (CACert c) then ([CallReadFile (CACert c)], ReadFile w (CACert c))
      else ([], Ok "") in
    match caCert with
    | Err e => (ev1, Err e)
    | Ok caCert =>
        let target :=
          if nonempty (ATCURL c) then
            let team := if nonempty (TeamName c) then TeamName c
                        else DefaultTeamName w in
            NewUnauthenticatedTarget w (Fly_Target w) (ATCURL c) team
              (Insecure c) caCert (Fly_Verbose w)
          else
            LoadTargetWithInsecure w (Fly_Target w) (TeamName c)
              (Insecure c) caCert (Fly_Verbose w) in
        match target with
        | Err e => (ev1, Err e)
        | Ok target =>
            let ev2 := (ev1 ++ [Stdout ("logging in to team '" ++ Team_Name target
                                         ++ "'" ++ nl ++ nl)])%list in
            match args w with
            | _ :: _ =>
                (ev2, Err ("unexpected argument [" ++ Join (args w) ", " ++ "]"))
            | [] =>
                match ValidateWithWarningOnly target with
                | Some e => (ev2, Err e)
                | None => (ev2, Ok target)
                end
            end
        end
    end.

(** The condition [command.Username != "" && command.Password != ""]. *)
Definition password_supplied (w : World) : bool :=
  nonempty (Username (command w)) && nonempty (Password (command w)).

(** [passwordGrant] *)
Definition passwordGrant (target : Target) (username password : string)
  : result (string * string) :=
  match PasswordGrant target username password with
  | Err e => Err e
  | Ok token => Ok (TokenType token, AccessToken token)
  end.

(** The text that [authCodeGrant] prints once it holds the port.
    [url.Parse] of ["http://127.0.0.1:<port>/auth/callback"] succeeds for
    the decimal port of a listener and [String()] gives the same text
    back, so [redirectUrl.String()] is that text. *)
Definition redirectUrl (port : string) : string :=
  "http://127.0.0.1:" ++ port ++ "/auth/callback".

Definition login_line (targetUrl port : string) : string :=
  "    " ++ targetUrl ++ "/sky/login?redirect=" ++ redirectUrl port ++ nl.

Definition login_prints (targetUrl port : string) : list Event :=
  [ Stdout ("navigate to the following URL in your browser:" ++ nl);
    Stdout nl;
    Stdout (login_line targetUrl port);
    Stdout nl ].

(** The end of [authCodeGrant]:
    [segments := strings.SplitN(tokenStr, " ", 2)] and
    [return segments[0], segments[1], nil]; indexing past the end of the
    slice panics. *)
Definition split_token (tokenStr : string) : option (string * string) :=
  let segments := SplitN tokenStr " " 2 in
  match nth_error segments 0, nth_error segments 1 with
  | Some s0, Some s1 => Some (s0, s1)
  | _, _ => None
  end.

(** The end of [Execute], after the grant: an empty line, then
    [saveTarget]. *)
Definition save (w : World) (target : Target) (tokenType tokenValue : string)
  : list Event * option error :=
  let token := {| Type_ := tokenType; Value := tokenValue |} in
  let ev := [ Stdout nl;
              CallSaveTarget (Fly_Target w) (URL target) (Insecure (command w))
                (Team_Name target) token (Target_CACert target) ] in
  match SaveTarget w (Fly_Target w) (URL target) (Insecure (command w))
          (Team_Name target) token (Target_CACert target) with
  | Some e => (ev, Some e)
  | None => ((ev ++ [Stdout ("target saved" ++ nl)])%list, None)
  end.

(** One turn of the loop of [waitForTokenInput] on standard input [inp]:
    the prompt, [fmt.Scanf], and the branch taken.  Returns what was
    printed, where the goroutine stands and what is left on standard
    input. *)
Definition prompt : string := "or enter token manually: ".
Definition format_hint : string :=
  "token must be of the format 'TYPE VALUE', e.g. 'Bearer ...'" ++ nl.

Definition waitForTokenInput_turn (inp : list rune)
  : list Event * ReaderPC * list rune :=
  let r := Scanf inp in
  match err r with
  | Some e =>
      if negb (Nat.eqb (count r) 2) then
        ([Stdout prompt; Stdout format_hint], RLoop, rest r)
      else ([Stdout prompt], RSendError e, rest r)
  | None =>
      ([Stdout prompt], RSendToken (arg0 r ++ " " ++ arg1 r), rest r)
  end.

(** The handler of the callback server, after its send on
    [tokenChannel]. *)
Definition success_url (targetUrl : string) : string :=
  targetUrl ++ "/public/fly_success".

(** *** The transition system

    A label names what the scheduler lets happen next: a goroutine runs
    up to its next blocking point, or a send and a receive on an
    unbuffered channel meet.  [AServeReturn] and [AAccept] carry what the
    network does: [srv.Serve] fails with an error (it never returns nil),
    a request arrives and the server starts a goroutine for it. *)
Inductive action :=
| AMain
| AListen
| ARecvPort
| AServeReturn (e : error)
| AAccept (r : Request)
| ASelectToken (i : nat)
| ASelectStdin
| ASelectErrorListener
| ASelectErrorReader
| AHandler (i : nat)
| AReader.

Definition emit (evs : list Event) (s : State) : State :=
  mk_state (main s) (listener s) (reader s) (handlers s) (stdin s)
           (trace s ++ evs)%list.
Definition set_main (m : MainPC) (s : State) : State :=
  mk_state m (listener s) (reader s) (handlers s) (stdin s) (trace s).
Definition set_listener (l : option ListenerPC) (s : State) : State :=
  mk_state (main s) l (reader s) (handlers s) (stdin s) (trace s).
Definition set_reader (r : option ReaderPC) (s : State) : State :=
  mk_state (main s) (listener s) r (handlers s) (stdin s) (trace s).
Definition set_handlers (h : list HandlerPC) (s : State) : State :=
  mk_state (main s) (listener s) (reader s) h (stdin s) (trace s).
Definition set_stdin (i : list rune) (s : State) : State :=
  mk_state (main s) (listener s) (reader s) (handlers s) i (trace s).

Fixpoint update_nth {A : Type} (i : nat) (x : A) (l : list A) : list A :=
  match l, i with
  | [], _ => []
  | _ :: l', O => x :: l'
  | y :: l', S i' => y :: update_nth i' x l'
  end.

(** The main goroutine runs to its next blocking point: [Execute] up to
    the grant, [authCodeGrant] between its receives, the split of the
    token, [saveTarget]. *)
Definition step_main (w : World) (s : State) : option State :=
  match main s with
  | MStart =>
      match resolve w with
      | (evs, Err e) => Some (set_main (MReturned (Some e)) (emit evs s))
      | (evs, Ok target) =>
          let c := command w in
          if password_supplied w then
            let s1 := emit (evs ++ [CallPasswordGrant (Username c) (Password c)])%list s in
            match passwordGrant target (Username c) (Password c) with
            | Err e => Some (set_main (MReturned (Some e)) s1)
            | Ok (tokenType, tokenValue) =>
                Some (set_main (MGranted target tokenType tokenValue) s1)
            end
          else
            Some (set_listener (Some (LStart (URL target)))
                    (set_main (MWaitPort target)
                       (emit (evs ++ [Go listenForTokenCallback])%list s)))
      end
  | MGotPort target port =>
      Some (set_reader (Some RLoop)
              (set_main (MSelect target)
                 (emit (login_prints (URL target) port ++ [Go waitForTokenInput])%list s)))
  | MGotToken target tokenStr =>
      match split_token tokenStr with
      | Some (tokenType, tokenValue) =>
          Some (set_main (MGranted target tokenType tokenValue) s)
      | None => Some (set_main (MPanicked "index out of range") s)
      end
  | MGranted target tokenType tokenValue =>
      let '(evs, e) := save w target tokenType tokenValue in
      Some (set_main (MReturned e) (emit evs s))
  | MWaitPort _ | MSelect _ | MReturned _ | MPanicked _ => None
  end.

Definition step (w : World) (a : action) (s : State) : option State :=
  match a with
  | AMain => step_main w s
  | AListen =>
      (* listenAndServeWithPort: net.Listen, then SplitHostPort *)
      match listener s with
      | Some (LStart targetUrl) =>
          let s1 := emit [CallListen "127.0.0.1:0"] s in
          match net_Listen w with
          | Err e => Some (set_listener (Some (LSendError e)) s1)
          | Ok port =>
              Some (set_listener (Some (LSendPort targetUrl (decimal port))) s1)
          end
      | _ => None
      end
  | ARecvPort =>
      (* portChannel <- port meets port := <-portChannel *)
      match main s, listener s with
      | MWaitPort target, Some (LSendPort targetUrl port) =>
          Some (set_listener (Some (LServing targetUrl))
                  (set_main (MGotPort target port)
                     (emit [Recv portChannel port] s)))
      | _, _ => None
      end
  | AServeReturn e =>
      match listener s with
      | Some (LServing _) => Some (set_listener (Some (LSendError e)) s)
      | _ => None
      end
  | AAccept r =>
      match listener s with
      | Some (LServing targetUrl) =>
          Some (set_handlers
                  (handlers s ++ [HSend targetUrl (FormValue r "token")])%list s)
      | _ => None
      end
  | ASelectToken i =>
      (* case tokenStrMsg := <-tokenChannel *)
      match main s, nth_error (handlers s) i with
      | MSelect target, Some (HSend targetUrl token) =>
          Some (set_handlers (update_nth i (HRedirect targetUrl) (handlers s))
                  (set_main (MGotToken target token)
                     (emit [Recv tokenChannel token] s)))
      | _, _ => None
      end
  | ASelectStdin =>
      (* case tokenStrMsg := <-stdinChannel *)
      match main s, reader s with
      | MSelect target, Some (RSendToken tokenStr) =>
          Some (set_reader (Some RReturned)
                  (set_main (MGotToken target tokenStr)
                     (emit [Recv stdinChannel tokenStr] s)))
      | _, _ => None
      end
  | ASelectErrorListener =>
      (* case errorMsg := <-errorChannel, sent by listenForTokenCallback *)
      match main s, listener s with
      | MSelect _, Some (LSendError e) =>
          Some (set_listener (Some LReturned)
                  (set_main (MReturned (Some e))
                     (emit [Recv errorChannel e] s)))
      | _, _ => None
      end
  | ASelectErrorReader =>
      (* case errorMsg := <-errorChannel, sent by waitForTokenInput *)
      match main s, reader s with
      | MSelect _, Some (RSendError e) =>
          Some (set_reader (Some RReturned)
                  (set_main (MReturned (Some e))
                     (emit [Recv errorChannel e] s)))
      | _, _ => None
      end
  | AHandler i =>
      (* http.Redirect(w, r, targetUrl + "/public/fly_success", 307) *)
      match nth_error (handlers s) i with
      | Some (HRedirect targetUrl) =>
          let resp := {| StatusCode := StatusTemporaryRedirect;
                         Location := success_url targetUrl |} in
          Some (set_handlers (update_nth i (HDone resp) (handlers s))
                  (emit [CallRedirect (success_url targetUrl)
                           StatusTemporaryRedirect] s))
      | _ => None
      end
  | AReader =>
      match reader s with
      | Some RLoop =>
          let '(evs, pc, inp) := waitForTokenInput_turn (stdin s) in
          Some (set_reader (Some pc) (set_stdin inp (emit evs s)))
      | _ => None
      end
  end.

(** A schedule is run from a state; [None] when one of its labels is not
    enabled. *)
Fixpoint run (w : World) (sched : list action) (s : State) : option State :=
  match sched with
  | [] => Some s
  | a :: sched' =>
      match step w a s with
      | None => None
      | Some s' => run w sched' s'
      end
  end.

(** *** A sample environment *)

Definition sample_target : Target :=
  {| URL := "https://ci.example.com";
     Team_Name := "main";
     Target_CACert := "";
     ValidateWithWarningOnly := None;
     PasswordGrant := fun _ _ =>
       Ok {| TokenType := "bearer"; AccessToken := "xyz" |} |}.

Definition sample_command : LoginCommand :=
  {| ATCURL := "https://ci.example.com"; Insecure := false;
     Username := ""; Password := ""; TeamName := ""; CACert := "" |}.

Definition sample_world (listen : result N) (inp : list rune) : World :=
  {| Fly_Target := "ci"; Fly_Verbose := false;
     command := sample_command; args := [];
     DefaultTeamName := "main";
     ReadFile := fun _ => Err "open: no such file or directory";
     NewUnauthenticatedTarget := fun _ _ _ _ _ _ => Ok sample_target;
     LoadTargetWithInsecure := fun _ _ _ _ _ => Err "unknown target";
     SaveTarget := fun _ _ _ _ _ _ => None;
     net_Listen := listen;
     os_Stdin := inp |}.

Definition password_world : World :=
  {| Fly_Target := "ci"; Fly_Verbose := false;
     command := {| ATCURL := "https://ci.example.com"; Insecure := false;
                   Username := "brock-samson"; Password := "hunter2";
                   TeamName := ""; CACert := "" |};
     args := [];
     DefaultTeamName := "main";
     ReadFile := fun _ => Err "open: no such file or directory";
     NewUnauthenticatedTarget := fun _ _ _ _ _ _ => Ok sample_target;
     LoadTargetWithInsecure := fun _ _ _ _ _ => Err "unknown target";
     SaveTarget := fun _ _ _ _ _ _ => None;
     net_Listen := Ok 45123%N;
     os_Stdin := [] |}.

End Login.

(* ================================================================= *)
(** ** Predicates used in the statements *)

Module Predicates.
Import GoStrings Fmt Login.

(** A text without the separator [" "]. *)
Fixpoint no_space (s : string) : bool :=
  match s with
  | EmptyString => true
  | String c s' => negb (Ascii.eqb c " ") && no_space s'
  end.

Local Open Scope Z_scope.
Local Open Scope list_scope.

(** A space that is not a newline. *)
Definition blank (r : rune) : bool := isSpace r && negb (r =? NL).

(** A token of the input: one or more runes (values of type [int32]),
    none of them a space. *)
Definition token_rune (r : rune) : bool := is_rune r && notSpace r.
Definition wordb (t : list rune) : bool :=
  match t with
  | [] => false
  | _ :: _ => forallb token_rune t
  end.

(** The input after a token: its end, or a space. *)
Definition stops (tail : list rune) : bool :=
  match tail with
  | [] => true
  | r :: _ => isSpace r
  end.

(** The input after a run of blanks: a rune that is not a blank. *)
Definition unblank (l : list rune) : bool :=
  match l with
  | [] => false
  | r :: _ => negb (blank r)
  end.

(** The scan state when a routine stopped in front of [tail]: it has
    read and put back the first rune, unless it met the end of file. *)
Definition after (tail : list rune) : ss :=
  mk_ss tail (match tail with [] => false | _ :: _ => true end).

Local Close Scope Z_scope.

(** A text that begins with a space, as the line of the login URL does
    and no other text that the command prints. *)
Definition starts_with_space (txt : string) : bool :=
  match txt with
  | String c _ => Ascii.eqb c " "
  | EmptyString => false
  end.

(** The events of [resolve] and of [save] and what one turn of the reader
    prints. *)
Definition resolve_event (ev : Event) : bool :=
  match ev with
  | CallReadFile _ => true
  | Stdout txt => negb (starts_with_space txt)
  | _ => false
  end.

Definition save_event (ev : Event) : bool :=
  match ev with
  | CallSaveTarget _ _ _ _ _ _ => true
  | Stdout txt => negb (starts_with_space txt)
  | _ => false
  end.

(** *** Events and control points, by kind *)

(** An event that belongs to neither the race nor the login URL: no
    receive, no start of the reader, no reply of a handler, no text that
    could be the line of the login URL. *)
Definition quiet (ev : Event) : bool :=
  match ev with
  | Stdout txt => negb (starts_with_space txt)
  | Recv _ _ => false
  | Go waitForTokenInput => false
  | CallRedirect _ _ => false
  | _ => true
  end.

Definition is_listen (ev : Event) : bool :=
  match ev with
  | CallListen _ => true
  | _ => false
  end.

(** The control points of [Execute] outside [authCodeGrant]. *)
Definition outside_race (m : MainPC) : Prop :=
  match m with
  | MStart | MGranted _ _ _ | MReturned _ => True
  | _ => False
  end.

(** What holds in every state of a run in which [net.Listen] fails with
    [e]. *)
Definition bind_failed_inv (e : error) (s : State) : Prop :=
  reader s = None /\ handlers s = [] /\ forallb quiet (trace s) = true /\
  match listener s with
  | None => existsb is_listen (trace s) = false /\ outside_race (main s)
  | Some (LStart _) =>
      existsb is_listen (trace s) = false
      /\ exists target, main s = MWaitPort target
  | Some (LSendError e') => e' = e /\ exists target, main s = MWaitPort target
  | Some _ => False
  end.

(** The credential that one line of manual input leads to: what the
    reader sends after one turn on [inp], split as [authCodeGrant] does. *)
Definition manual_line_credential (inp : list rune) : option (string * string) :=
  match waitForTokenInput_turn inp with
  | (_, RSendToken tokenStr, _) => split_token tokenStr
  | _ => None
  end.

(** A line without the two tokens, up to its newline: blanks only, or one
    token between blanks. *)
Inductive malformed : list rune -> Prop :=
| no_token (sp : list rune) :
    forallb blank sp = true -> malformed sp
| one_token (sp1 k sp2 : list rune) :
    forallb blank sp1 = true -> wordb k = true -> forallb blank sp2 = true ->
    malformed (sp1 ++ k ++ sp2).

(** *** What the goroutines hold, against the environment *)

(** [t] is the target that [Execute] resolved, [p] the text of the port
    that the operating system assigned. *)
Definition target_ok (w : World) (t : Target) : Prop := snd (resolve w) = Ok t.
Definition url_ok (w : World) (u : string) : Prop :=
  exists t, target_ok w t /\ u = URL t.
Definition port_ok (w : World) (p : string) : Prop :=
  exists n, net_Listen w = Ok n /\ p = decimal n.

Definition main_ok (w : World) (m : MainPC) : Prop :=
  match m with
  | MWaitPort t | MSelect t | MGotToken t _ | MGranted t _ _ => target_ok w t
  | MGotPort t p => target_ok w t /\ port_ok w p
  | MStart | MReturned _ | MPanicked _ => True
  end.

Definition listener_ok (w : World) (l : option ListenerPC) : Prop :=
  match l with
  | Some (LStart u) | Some (LServing u) => url_ok w u
  | Some (LSendPort u p) => url_ok w u /\ port_ok w p
  | Some (LSendError _) | Some LReturned | None => True
  end.

Definition handler_ok (w : World) (h : HandlerPC) : Prop :=
  match h with
  | HSend u _ | HRedirect u => url_ok w u
  | HDone resp =>
      exists u, url_ok w u
                /\ resp = {| StatusCode := StatusTemporaryRedirect;
                             Location := success_url u |}
  end.

(** An event that is not an indented line on standard output. *)
Definition no_indent (ev : Event) : bool :=
  match ev with
  | Stdout txt => negb (starts_with_space txt)
  | _ => true
  end.

(** Every indented line on standard output is the line of the login URL
    for the resolved target and the assigned port, and the port was
    received from [portChannel] before. *)
Definition ordered (w : World) (tr : list Event) : Prop :=
  forall pre txt post,
    tr = pre ++ Stdout txt :: post ->
    starts_with_space txt = true ->
    exists t n,
      target_ok w t /\ net_Listen w = Ok n
      /\ txt = login_line (URL t) (decimal n)
      /\ In (Recv portChannel (decimal n)) pre.

Definition consistent (w : World) (s : State) : Prop :=
  main_ok w (main s) /\ listener_ok w (listener s)
  /\ Forall (handler_ok w) (handlers s)
  /\ ordered w (trace s)
  /\ (forall t p, main s = MGotPort t p -> In (Recv portChannel p) (trace s))
  /\ (forall t, main s = MSelect t ->
        exists n, net_Listen w = Ok n
                  /\ In (Stdout (login_line (URL t) (decimal n))) (trace s)).

(** *** Counting what the select took and what was saved *)

Definition is_select (ev : Event) : bool :=
  match ev with
  | Recv tokenChannel _ | Recv stdinChannel _ | Recv errorChannel _ => true
  | _ => false
  end.

Definition is_save (ev : Event) : bool :=
  match ev with
  | CallSaveTarget _ _ _ _ _ _ => true
  | _ => false
  end.

Definition is_go_listener (ev : Event) : bool :=
  match ev with
  | Go listenForTokenCallback => true
  | _ => false
  end.

(** What the select took, the tokens handed to [rc.SaveTarget], and
    whether the race was entered. *)
Definition accepted (tr : list Event) : list Event := filter is_select tr.
Definition saved (tr : list Event) : list TargetToken :=
  flat_map (fun ev => match ev with
                      | CallSaveTarget _ _ _ _ token _ => [token]
                      | _ => []
                      end) tr.
Definition raced (tr : list Event) : bool := existsb is_go_listener tr.

(** The credential [(ty, v)] is the outcome of the grant: in the race,
    the split of the one message that the select took; with the password
    grant, nothing was taken. *)
Definition outcome_of (acc : list Event) (rc : bool) (ty v : string) : Prop :=
  if rc then
    exists c tokenStr,
      acc = [Recv c tokenStr] /\ split_token tokenStr = Some (ty, v)
  else acc = [].

Definition saved_outcome (acc : list Event) (sv : list TargetToken) (rc : bool)
  : Prop :=
  exists ty v, sv = [{| Type_ := ty; Value := v |}] /\ outcome_of acc rc ty v.

Definition single_outcome
  (m : MainPC) (acc : list Event) (sv : list TargetToken) (rc : bool) : Prop :=
  match m with
  | MStart => acc = [] /\ sv = [] /\ rc = false
  | MWaitPort _ | MGotPort _ _ | MSelect _ => acc = [] /\ sv = [] /\ rc = true
  | MGotToken _ tokenStr =>
      (exists c, acc = [Recv c tokenStr]) /\ sv = [] /\ rc = true
  | MPanicked _ => (exists c tokenStr, acc = [Recv c tokenStr]) /\ sv = []
  | MGranted _ ty v => sv = [] /\ outcome_of acc rc ty v
  | MReturned None => saved_outcome acc sv rc
  | MReturned (Some _) =>
      (List.length acc <= 1 /\ sv = []) \/ saved_outcome acc sv rc
  end.

Definition single_outcome_inv (s : State) : Prop :=
  single_outcome (main s) (accepted (trace s)) (saved (trace s))
                 (raced (trace s)).

(** *** The password grant *)

Definition is_race_event (ev : Event) : bool :=
  match ev with
  | Go _ | CallListen _ | Recv _ _ | CallRedirect _ _ => true
  | _ => false
  end.

Definition is_password_grant (ev : Event) : bool :=
  match ev with
  | CallPasswordGrant _ _ => true
  | _ => false
  end.

(** The exchange with the flags of the command returned [(ty, v)]. *)
Definition exchanged (w : World) (target : Target) (ty v : string) : Prop :=
  PasswordGrant target (Username (command w)) (Password (command w))
  = Ok {| TokenType := ty; AccessToken := v |}.

Definition one_exchange (w : World) (tr : list Event) : Prop :=
  filter is_password_grant tr
  = [CallPasswordGrant (Username (command w)) (Password (command w))].

(** What holds in every state of a run with a user name and a password,
    for the resolved target. *)
Definition password_inv (w : World) (target : Target) (s : State) : Prop :=
  listener s = None /\ reader s = None /\ handlers s = []
  /\ existsb is_race_event (trace s) = false
  /\ match main s with
     | MStart => trace s = []
     | MGranted t ty v =>
         t = target /\ exchanged w target ty v
         /\ one_exchange w (trace s) /\ saved (trace s) = []
     | MReturned (Some e) =>
         one_exchange w (trace s)
         /\ ((PasswordGrant target (Username (command w)) (Password (command w))
              = Err e /\ saved (trace s) = [])
             \/ exists ty v,
                 exchanged w target ty v
                 /\ saved (trace s) = [{| Type_ := ty; Value := v |}])
     | MReturned None =>
         one_exchange w (trace s)
         /\ exists ty v,
             exchanged w target ty v
             /\ saved (trace s) = [{| Type_ := ty; Value := v |}]
     | _ => False
     end.

(** *** Further invariants of the runs *)

(** What a scanner routine that started on [l] leaves in [s]: a suffix of
    [l]; a rune in the look-ahead slot only if there is one; and, with an
    empty slot, either the end of the input or less than [l]. *)
Definition leaves (l : list rune) (s : ss) : Prop :=
  (exists pre, l = pre ++ input s)
  /\ (unread s = true -> input s <> [])
  /\ (unread s = false -> input s = [] \/ List.length (input s) < List.length l).

(** The lines of [lines], each with its newline, and the prompts and
    hints that the reader prints for them. *)
Definition with_newlines (lines : list (list rune)) : list rune :=
  flat_map (fun line => line ++ [NL]) lines.

Definition hints (lines : list (list rune)) : list Event :=
  flat_map (fun _ => [Stdout prompt; Stdout format_hint]) lines.

(** When the configuration does not resolve, with error [e]. *)
Definition config_failed_inv (w : World) (e : error) (s : State) : Prop :=
  listener s = None /\ reader s = None /\ handlers s = []
  /\ ((main s = MStart /\ trace s = [])
      \/ (main s = MReturned (Some e) /\ trace s = fst (resolve w))).

(** Receives of an error, of a token from a handler, of the port. *)
Definition is_error_recv (ev : Event) : bool :=
  match ev with
  | Recv errorChannel _ => true
  | _ => false
  end.

Definition is_token_recv (ev : Event) : bool :=
  match ev with
  | Recv tokenChannel _ => true
  | _ => false
  end.

Definition is_other_recv (ev : Event) : bool :=
  match ev with
  | Recv stdinChannel _ | Recv errorChannel _ => true
  | _ => false
  end.

Definition is_port_recv (ev : Event) : bool :=
  match ev with
  | Recv portChannel _ => true
  | _ => false
  end.

Definition is_go_reader (ev : Event) : bool :=
  match ev with
  | Go waitForTokenInput => true
  | _ => false
  end.

Definition is_redirect (ev : Event) : bool :=
  match ev with
  | CallRedirect _ _ => true
  | _ => false
  end.

Definition how_many {A : Type} (f : A -> bool) (l : list A) : nat :=
  List.length (filter f l).

(** An error that the select took came from the listener goroutine, is
    what [Execute] returned, and nothing was saved. *)
Definition error_inv (s : State) : Prop :=
  (forall e, reader s <> Some (RSendError e))
  /\ (filter is_error_recv (trace s) = []
      \/ exists e,
          filter is_error_recv (trace s) = [Recv errorChannel e]
          /\ main s = MReturned (Some e)
          /\ listener s = Some LReturned
          /\ saved (trace s) = [])
  /\ single_outcome_inv s.

(** A handler that is still blocked in its send, and one that has
    replied. *)
Definition is_HSend (h : HandlerPC) : bool :=
  match h with
  | HSend _ _ => true
  | _ => false
  end.

Definition is_HDone (h : HandlerPC) : bool :=
  match h with
  | HDone _ => true
  | _ => false
  end.

Definition before_outcome (m : MainPC) : bool :=
  match m with
  | MStart | MWaitPort _ | MGotPort _ _ | MSelect _ => true
  | _ => false
  end.

Definition answered_inv (s : State) : Prop :=
  how_many (fun h => negb (is_HSend h)) (handlers s) = how_many is_token_recv (trace s)
  /\ how_many is_HDone (handlers s) = how_many is_redirect (trace s)
  /\ how_many is_token_recv (trace s) + how_many is_other_recv (trace s) <= 1
  /\ (before_outcome (main s) = true ->
      how_many is_token_recv (trace s) + how_many is_other_recv (trace s) = 0).

(** How often the listener was started, [net.Listen] called, the port
    received and the reader started. *)
Definition starts (tr : list Event) : nat * nat * nat * nat :=
  (how_many is_go_listener tr, how_many is_listen tr, how_many is_port_recv tr,
   how_many is_go_reader tr).

Definition past_port (m : MainPC) : Prop :=
  match m with
  | MStart | MWaitPort _ | MGotPort _ _ => False
  | _ => True
  end.

Definition at_MWaitPort (m : MainPC) : Prop :=
  match m with MWaitPort _ => True | _ => False end.

Definition at_MGotPort (m : MainPC) : Prop :=
  match m with MGotPort _ _ => True | _ => False end.

Definition once_inv (s : State) : Prop :=
  let c := starts (trace s) in
  match listener s with
  | None => c = (0, 0, 0, 0) /\ outside_race (main s)
  | Some (LStart _) => c = (1, 0, 0, 0) /\ at_MWaitPort (main s)
  | Some (LSendPort _ _) => c = (1, 1, 0, 0) /\ at_MWaitPort (main s)
  | Some (LSendError _) =>
      (c = (1, 1, 0, 0) /\ at_MWaitPort (main s))
      \/ (c = (1, 1, 1, 0) /\ at_MGotPort (main s))
      \/ (c = (1, 1, 1, 1) /\ past_port (main s))
  | Some (LServing _) | Some LReturned =>
      (c = (1, 1, 1, 0) /\ at_MGotPort (main s))
      \/ (c = (1, 1, 1, 1) /\ past_port (main s))
  end.

(** The text that [saveTarget] prints, and the one call of
    [rc.SaveTarget] with what [Execute] resolved. *)
Definition is_saved_text (ev : Event) : bool :=
  match ev with
  | Stdout txt => String.eqb txt ("target saved" ++ nl)
  | _ => false
  end.

Definition save_call (w : World) (t : Target) (token : TargetToken) : Event :=
  CallSaveTarget (Fly_Target w) (URL t) (Insecure (command w)) (Team_Name t)
                 token (Target_CACert t).

Definition save_result (w : World) (t : Target) (token : TargetToken)
  : option error :=
  SaveTarget w (Fly_Target w) (URL t) (Insecure (command w)) (Team_Name t)
             token (Target_CACert t).

Definition save_inv (w : World) (s : State) : Prop :=
  let tr := trace s in
  match main s with
  | MReturned r =>
      (filter is_save tr = [] /\ existsb is_saved_text tr = false /\ r <> None)
      \/ exists t token,
          target_ok w t
          /\ filter is_save tr = [save_call w t token]
          /\ r = save_result w t token
          /\ existsb is_saved_text tr
             = match r with None => true | Some _ => false end
  | _ => filter is_save tr = [] /\ existsb is_saved_text tr = false
  end.

(** An event that is none of the receives and no reply of a handler, and
    one that starts nothing. *)
Definition plain_event (ev : Event) : bool :=
  negb (is_token_recv ev) && negb (is_other_recv ev) && negb (is_redirect ev).

Definition idle_event (ev : Event) : bool :=
  negb (is_go_listener ev) && negb (is_listen ev) && negb (is_port_recv ev)
  && negb (is_go_reader ev).

(** A reply of a handler is the temporary redirect to the success page
    of the resolved target. *)
Definition redirect_ok (w : World) (ev : Event) : Prop :=
  match ev with
  | CallRedirect url code =>
      code = StatusTemporaryRedirect
      /\ exists t, target_ok w t /\ url = success_url (URL t)
  | _ => True
  end.

(** The receive of the line of the reader. *)
Definition is_stdin_recv (ev : Event) : bool :=
  match ev with
  | Recv stdinChannel _ => true
  | _ => false
  end.

End Predicates.

(* ================================================================= *)
(** ** Facts about the string functions *)

Module GoStringsFacts.
Import GoStrings Predicates.


Lemma prefix_space_cons (c : ascii) (s : string) :
  String.prefix " " (String c s) = Ascii.eqb " " c.
Proof.
  cbn [String.prefix]. destruct (ascii_dec " " c) as [E | E].
  - subst c. rewrite Ascii.eqb_refl. destruct s; reflexivity.
  - symmetry. apply Ascii.eqb_neq. exact E.
Qed.

Lemma Index_no_space (s : string) :
  no_space s = true -> Index s " " = None.
Proof.
  induction s as [| c s IH]; intros H.
  - reflexivity.
  - cbn [no_space] in H. apply andb_true_iff in H as [Hc Hs].
    cbn [Index]. rewrite prefix_space_cons.
    rewrite Ascii.eqb_sym. apply negb_true_iff in Hc. rewrite Hc.
    rewrite (IH Hs). reflexivity.
Qed.

Lemma Index_first_space (a b : string) :
  no_space a = true ->
  Index (a ++ String " " b) " " = Some (String.length a).
Proof.
  induction a as [| c a IH]; intros H.
  - cbn [append Index]. rewrite prefix_space_cons. reflexivity.
  - cbn [no_space] in H. apply andb_true_iff in H as [Hc Hs].
    cbn [append Index]. rewrite prefix_space_cons.
    rewrite Ascii.eqb_sym. apply negb_true_iff in Hc. rewrite Hc.
    rewrite (IH Hs). reflexivity.
Qed.

Lemma substring_all (s : string) : String.substring 0 (String.length s) s = s.
Proof. induction s as [| c s IH]; simpl; [reflexivity | now rewrite IH]. Qed.

Lemma slice_to_app (a b : string) : slice_to (a ++ b) (String.length a) = a.
Proof.
  unfold slice_to. induction a as [| c a IH]; simpl.
  - destruct b; reflexivity.
  - now rewrite IH.
Qed.

Lemma length_app (a b : string) :
  String.length (a ++ b) = String.length a + String.length b.
Proof. induction a as [| c a IH]; simpl; [reflexivity | now rewrite IH]. Qed.

Lemma slice_from_app (a b : string) :
  slice_from (a ++ String " " b) (String.length a + 1) = b.
Proof.
  unfold slice_from. induction a as [| c a IH].
  - simpl. rewrite Nat.sub_0_r. apply substring_all.
  - cbn [append String.length Nat.add]. cbn [String.substring].
    replace (S (String.length (a ++ String " " b)) - S (String.length a + 1))
      with (String.length (a ++ String " " b) - (String.length a + 1))
      by reflexivity.
    exact IH.
Qed.

(** [SplitN(s, " ", 2)] cuts at the first space, and only there. *)
Lemma SplitN_first_space (a b : string) :
  no_space a = true ->
  SplitN (a ++ " " ++ b) " " 2 = [a; b].
Proof.
  intros H. unfold SplitN. cbn [append].
  rewrite length_app. cbn [String.length].
  replace (Nat.min 2 (String.length a + S (String.length b) + 1)) with 2
    by (symmetry; apply Nat.min_l; lia).
  cbn [genSplit_loop]. rewrite (Index_first_space a b H).
  rewrite slice_to_app. cbn [String.length]. rewrite slice_from_app.
  reflexivity.
Qed.

(** Without a space there is one segment, the text itself. *)
Lemma SplitN_no_space (s : string) :
  no_space s = true -> SplitN s " " 2 = [s].
Proof.
  intros H. unfold SplitN.
  destruct (Nat.min 2 (String.length s + 1)) as [| k] eqn:E.
  - exfalso. destruct (String.length s); discriminate E.
  - destruct k as [| k]; cbn [genSplit_loop]; [reflexivity |].
    now rewrite (Index_no_space s H).
Qed.

Lemma no_space_app (a b : string) :
  no_space (a ++ b) = no_space a && no_space b.
Proof.
  induction a as [| c a IH]; simpl; [reflexivity |].
  rewrite IH. now rewrite andb_assoc.
Qed.

End GoStringsFacts.

(* ================================================================= *)
(** ** Facts about the scanner *)

Module FmtFacts.
Import GoStrings Fmt Predicates GoStringsFacts.

Local Open Scope Z_scope.
Local Open Scope list_scope.


Lemma remaining_after (tail : list rune) : remaining (after tail) = tl tail.
Proof. destruct tail; reflexivity. Qed.

Lemma notSpace_not_CR_NL (r : rune) :
  notSpace r = true -> (r =? CR) = false /\ (r =? NL) = false.
Proof.
  intros H. split.
  - destruct (r =? CR) eqn:E; [| reflexivity].
    apply Z.eqb_eq in E. subst r. discriminate H.
  - destruct (r =? NL) eqn:E; [| reflexivity].
    apply Z.eqb_eq in E. subst r. discriminate H.
Qed.

Lemma SkipSpace_blanks (sp l : list rune) :
  forallb blank sp = true -> SkipSpace (sp ++ l) = SkipSpace l.
Proof.
  induction sp as [| r sp IH]; intros H; [reflexivity |].
  cbn [forallb] in H. apply andb_true_iff in H as [Hr Hsp].
  unfold blank in Hr. apply andb_true_iff in Hr as [Hs Hn].
  apply negb_true_iff in Hn.
  cbn [app SkipSpace]. rewrite Hn, Hs. cbn [negb].
  destruct ((r =? CR) && peek_nl (sp ++ l))%bool; apply IH; exact Hsp.
Qed.

Lemma SkipSpace_at_token (r : rune) (l : list rune) :
  notSpace r = true -> SkipSpace (r :: l) = Done tt (mk_ss (r :: l) true).
Proof.
  intros H. destruct (notSpace_not_CR_NL r H) as [Hc Hn].
  cbn [SkipSpace]. rewrite Hc, Hn. cbn [andb].
  unfold notSpace in H. rewrite H. reflexivity.
Qed.

Lemma SkipSpace_at_newline (l : list rune) :
  SkipSpace (NL :: l) = Panic "unexpected newline"%string (mk_ss l false).
Proof. reflexivity. Qed.

Lemma token_rune_notSpace (r : rune) : token_rune r = true -> notSpace r = true.
Proof. unfold token_rune. intros H. now apply andb_true_iff in H. Qed.

Lemma token_loop_word (k tail : list rune) :
  forallb token_rune k = true -> stops tail = true ->
  forall buf,
    token_loop notSpace (k ++ tail) buf
    = Done (fold_left writeRune k buf) (after tail).
Proof.
  intros Hk Ht. induction k as [| r k IH]; intros buf.
  - cbn [app fold_left]. destruct tail as [| r t]; [reflexivity |].
    cbn [stops] in Ht. cbn [token_loop]. unfold notSpace. rewrite Ht.
    reflexivity.
  - cbn [forallb] in Hk. apply andb_true_iff in Hk as [Hr Hk].
    cbn [app token_loop fold_left].
    rewrite (token_rune_notSpace r Hr). apply IH. exact Hk.
Qed.

Lemma convertString_word (k tail : list rune) :
  wordb k = true -> stops tail = true ->
  convertString (k ++ tail) = Done (string_of_runes k) (after tail).
Proof.
  intros Hk Ht. destruct k as [| r k]; [discriminate Hk |].
  cbn [wordb] in Hk.
  assert (Hr : notSpace r = true).
  { cbn [forallb] in Hk. apply andb_true_iff in Hk as [Hr _].
    now apply token_rune_notSpace. }
  unfold convertString. cbn [app].
  rewrite (SkipSpace_at_token r _ Hr). cbn [input notEOF].
  unfold token. rewrite (SkipSpace_at_token r _ Hr). cbn [input].
  exact (token_loop_word (r :: k) tail Hk Ht EmptyString).
Qed.

(** A verb [%s] in front of blanks and a token reads the token. *)
Lemma scan_verb_word (sp k tail : list rune) :
  forallb blank sp = true -> wordb k = true -> stops tail = true ->
  scan_verb (sp ++ k ++ tail) = Done (string_of_runes k) (after tail).
Proof.
  intros Hsp Hk Ht. unfold scan_verb.
  rewrite (SkipSpace_blanks sp _ Hsp).
  destruct k as [| r k]; [discriminate Hk |].
  assert (Hr : notSpace r = true).
  { cbn [wordb forallb] in Hk. apply andb_true_iff in Hk as [Hr _].
    now apply token_rune_notSpace. }
  cbn [app]. rewrite (SkipSpace_at_token r _ Hr). cbn [input].
  exact (convertString_word (r :: k) tail Hk Ht).
Qed.

(** A verb in front of blanks and a newline fails; the newline is read. *)
Lemma scan_verb_newline (sp l : list rune) :
  forallb blank sp = true ->
  scan_verb (sp ++ NL :: l)
  = Panic "unexpected newline"%string (mk_ss l false).
Proof.
  intros Hsp. unfold scan_verb. rewrite (SkipSpace_blanks sp _ Hsp).
  reflexivity.
Qed.

Lemma advance_spaces_blanks (sp l : list rune) :
  forallb blank sp = true -> unblank l = true ->
  advance_spaces (sp ++ l) = mk_ss l true.
Proof.
  intros Hsp Hl. induction sp as [| r sp IH].
  - destruct l as [| r l]; [discriminate Hl |].
    cbn [unblank] in Hl. apply negb_true_iff in Hl. unfold blank in Hl.
    cbn [app advance_spaces]. rewrite Hl. reflexivity.
  - cbn [forallb] in Hsp. apply andb_true_iff in Hsp as [Hr Hsp].
    unfold blank in Hr. cbn [app advance_spaces]. rewrite Hr.
    apply IH. exact Hsp.
Qed.

(** The space of the format consumes a non-empty run of blanks. *)
Lemma advance_blanks (sp l : list rune) :
  sp <> [] -> forallb blank sp = true -> unblank l = true ->
  advance (sp ++ l) = Done tt (mk_ss l true).
Proof.
  intros Hne Hsp Hl. destruct sp as [| r sp]; [contradiction |].
  pose proof (advance_spaces_blanks (r :: sp) l Hsp Hl) as Hadv.
  cbn [forallb] in Hsp. apply andb_true_iff in Hsp as [Hr _].
  unfold blank in Hr. apply andb_true_iff in Hr as [Hs Hn].
  apply negb_true_iff in Hn.
  cbn [app advance]. rewrite Hs, Hn. cbn [negb].
  cbn [app] in Hadv. rewrite Hadv. reflexivity.
Qed.

Lemma word_unblank (k tail : list rune) :
  wordb k = true -> unblank (k ++ tail) = true.
Proof.
  intros Hk. destruct k as [| r k]; [discriminate Hk |].
  cbn [wordb forallb] in Hk. apply andb_true_iff in Hk as [Hr _].
  apply token_rune_notSpace in Hr. unfold notSpace in Hr.
  apply negb_true_iff in Hr.
  cbn [app unblank]. unfold blank. rewrite Hr. reflexivity.
Qed.

(** [Scanf] on two tokens separated by blanks: both are read, whatever
    follows the second one. *)
Lemma Scanf_two_tokens (sp1 k sp2 v tail : list rune) :
  forallb blank sp1 = true -> wordb k = true ->
  sp2 <> [] -> forallb blank sp2 = true -> wordb v = true ->
  stops tail = true ->
  Scanf (sp1 ++ k ++ sp2 ++ v ++ tail)
  = mk_scan 2 None (string_of_runes k) (string_of_runes v) (tl tail).
Proof.
  intros H1 Hk Hne H2 Hv Ht. unfold Scanf.
  assert (Hs : stops (sp2 ++ v ++ tail) = true).
  { destruct sp2 as [| r sp2]; [contradiction |].
    cbn [forallb] in H2. apply andb_true_iff in H2 as [Hr _].
    unfold blank in Hr. apply andb_true_iff in Hr as [Hr _]. exact Hr. }
  rewrite (scan_verb_word sp1 k _ H1 Hk Hs).
  assert (E : input (after (sp2 ++ v ++ tail)) = sp2 ++ v ++ tail)
    by reflexivity.
  rewrite E.
  rewrite (advance_blanks sp2 (v ++ tail) Hne H2 (word_unblank v tail Hv)).
  cbn [input].
  pose proof (scan_verb_word [] v tail eq_refl Hv Ht) as Hv2.
  cbn [app] in Hv2. rewrite Hv2.
  rewrite remaining_after. reflexivity.
Qed.

(** A line without a token: blanks, then the newline. *)
Lemma Scanf_no_token (sp l : list rune) :
  forallb blank sp = true ->
  Scanf (sp ++ NL :: l)
  = mk_scan 0 (Some "unexpected newline"%string) EmptyString EmptyString l.
Proof.
  intros Hsp. unfold Scanf. rewrite (scan_verb_newline sp l Hsp). reflexivity.
Qed.

(** A line with one token: [Scanf] fails after the first operand, and
    has read the line with its newline. *)
Lemma Scanf_one_token (sp1 k sp2 l : list rune) :
  forallb blank sp1 = true -> wordb k = true -> forallb blank sp2 = true ->
  exists e,
    Scanf (sp1 ++ k ++ sp2 ++ NL :: l)
    = mk_scan 1 (Some e) (string_of_runes k) EmptyString l.
Proof.
  intros H1 Hk H2. unfold Scanf.
  assert (Hs : stops (sp2 ++ NL :: l) = true).
  { destruct sp2 as [| r sp2]; [reflexivity |].
    cbn [forallb] in H2. apply andb_true_iff in H2 as [Hr _].
    unfold blank in Hr. apply andb_true_iff in Hr as [Hr _]. exact Hr. }
  rewrite (scan_verb_word sp1 k _ H1 Hk Hs).
  assert (E : input (after (sp2 ++ NL :: l)) = sp2 ++ NL :: l) by reflexivity.
  rewrite E. destruct sp2 as [| r sp2].
  - eexists. reflexivity.
  - rewrite (advance_blanks (r :: sp2) (NL :: l)); [| discriminate | exact H2 | reflexivity].
    cbn [input]. pose proof (scan_verb_newline [] l eq_refl) as Hn.
    cbn [app] in Hn. rewrite Hn.
    eexists. reflexivity.
Qed.

(** [Scanf] reports an error exactly when it parsed fewer than its two
    operands. *)
Lemma Scanf_error_count (l : list rune) :
  (err (Scanf l) = None /\ count (Scanf l) = 2%nat)
  \/ (err (Scanf l) <> None /\ (count (Scanf l) < 2)%nat).
Proof.
  unfold Scanf.
  destruct (scan_verb l) as [a0 s | e s]; [| right; split; [discriminate | cbn; lia]].
  destruct (advance (input s)) as [u s1 | e s1];
    [| right; split; [discriminate | cbn; lia]].
  destruct (scan_verb (input s1)) as [a1 s2 | e s2];
    [| right; split; [discriminate | cbn; lia]].
  left. split; reflexivity.
Qed.

(** At the end of file nothing is parsed. *)
Lemma Scanf_EOF : Scanf [] = mk_scan 0 (Some io_EOF) EmptyString EmptyString [].
Proof. reflexivity. Qed.

End FmtFacts.

(* ================================================================= *)
(** ** The text of a token holds no space *)

Module Utf8Facts.
Import GoStrings Fmt Predicates GoStringsFacts FmtFacts.

Local Open Scope Z_scope.

Lemma append_nil_r (s : string) : (s ++ "")%string = s.
Proof. induction s as [| c s IH]; simpl; [reflexivity | now rewrite IH]. Qed.

Lemma append_assoc (a b c : string) :
  ((a ++ b) ++ c)%string = (a ++ (b ++ c))%string.
Proof. induction a as [| x a IH]; simpl; [reflexivity | now rewrite IH]. Qed.

Lemma fold_writeRune (rs : list rune) (buf : string) :
  fold_left writeRune rs buf = (buf ++ string_of_runes rs)%string.
Proof.
  unfold string_of_runes. revert buf.
  induction rs as [| r rs IH]; intros buf; cbn [fold_left].
  - now rewrite append_nil_r.
  - rewrite (IH (writeRune buf r)), (IH (writeRune EmptyString r)).
    unfold writeRune. cbn [append]. now rewrite append_assoc.
Qed.

Lemma string_of_runes_cons (r : rune) (rs : list rune) :
  string_of_runes (r :: rs)
  = (string_of_bytes (EncodeRune r) ++ string_of_runes rs)%string.
Proof.
  unfold string_of_runes at 1. cbn [fold_left]. rewrite fold_writeRune.
  reflexivity.
Qed.

(** A byte whose top bit is set is not the space. *)
Lemma top_bit_not_space (b : Z) :
  Z.testbit b 7 = true -> Ascii.eqb (ascii_of_byte b) " " = false.
Proof.
  intros H. apply Ascii.eqb_neq. unfold ascii_of_byte. intros E.
  injection E. intros. congruence.
Qed.

Lemma lor_top_bit (c x : Z) :
  Z.testbit c 7 = true -> Z.testbit (Z.lor c x) 7 = true.
Proof. intros H. rewrite Z.lor_spec, H. reflexivity. Qed.

(** The one-byte runes, checked one by one. *)
Lemma one_byte_table :
  forallb (fun n => let r := Z.of_nat n in
                    implb (Ascii.eqb (ascii_of_byte (byte r)) " ") (isSpace r))
          (seq 0 128) = true.
Proof. vm_compute. reflexivity. Qed.

Lemma one_byte_not_space (r : rune) :
  0 <= r <= 127 -> notSpace r = true ->
  Ascii.eqb (ascii_of_byte (byte r)) " " = false.
Proof.
  intros Hr Hn.
  pose proof one_byte_table as T. rewrite forallb_forall in T.
  specialize (T (Z.to_nat r)).
  assert (Hin : In (Z.to_nat r) (seq 0 128)) by (apply in_seq; lia).
  specialize (T Hin). cbv zeta in T. rewrite Z2Nat.id in T by lia.
  unfold notSpace in Hn. apply negb_true_iff in Hn. rewrite Hn in T.
  destruct (Ascii.eqb (ascii_of_byte (byte r)) " "); [discriminate T | reflexivity].
Qed.

Lemma EncodeRune_no_space (r : rune) :
  token_rune r = true -> no_space (string_of_bytes (EncodeRune r)) = true.
Proof.
  unfold token_rune, is_rune. intros H.
  apply andb_true_iff in H as [Hr Hn].
  apply andb_true_iff in Hr as [Hlo Hhi].
  apply Z.leb_le in Hlo. apply Z.ltb_lt in Hhi.
  unfold EncodeRune. cbv zeta.
  destruct (r mod 2 ^ 32 <=? rune1Max) eqn:E1.
  - apply Z.leb_le in E1. unfold rune1Max in E1.
    assert (Hsmall : 0 <= r <= 127).
    { destruct (Z_lt_le_dec r 0) as [Hneg | Hpos].
      - exfalso.
        assert (Hm : r mod 2 ^ 32 = r + 2 ^ 32).
        { symmetry. apply (Z.mod_unique r (2 ^ 32) (-1)); lia. }
        lia.
      - rewrite Z.mod_small in E1 by lia. lia. }
    cbn [string_of_bytes no_space].
    rewrite (one_byte_not_space r Hsmall Hn). reflexivity.
  - destruct (r mod 2 ^ 32 <=? rune2Max) eqn:E2.
    + cbn [string_of_bytes no_space].
      rewrite !top_bit_not_space by (apply lor_top_bit; reflexivity).
      reflexivity.
    + destruct ((r mod 2 ^ 32 >? MaxRune)
                || (surrogateMin <=? r mod 2 ^ 32) && (r mod 2 ^ 32 <=? surrogateMax))%bool.
      * vm_compute. reflexivity.
      * destruct (r mod 2 ^ 32 <=? rune3Max).
        -- unfold encode3. cbn [string_of_bytes no_space].
           rewrite !top_bit_not_space by (apply lor_top_bit; reflexivity).
           reflexivity.
        -- cbn [string_of_bytes no_space].
           rewrite !top_bit_not_space by (apply lor_top_bit; reflexivity).
           reflexivity.
Qed.

(** The text of a token holds no space. *)
Lemma word_no_space (k : list rune) :
  forallb token_rune k = true -> no_space (string_of_runes k) = true.
Proof.
  induction k as [| r k IH]; intros H; [reflexivity |].
  cbn [forallb] in H. apply andb_true_iff in H as [Hr Hk].
  rewrite string_of_runes_cons, no_space_app.
  rewrite (EncodeRune_no_space r Hr), (IH Hk). reflexivity.
Qed.

Lemma wordb_forallb (k : list rune) :
  wordb k = true -> forallb token_rune k = true.
Proof. destruct k; [discriminate | trivial]. Qed.

End Utf8Facts.

(* ================================================================= *)
(** ** Runs of the transition system *)

Module LoginFacts.
Import GoStrings Fmt Login Predicates GoStringsFacts FmtFacts Utf8Facts.

Local Open Scope list_scope.

Section Runs.

Variable w : World.

Lemma run_app (s1 s2 : list action) (s : State) :
  run w (s1 ++ s2) s
  = match run w s1 s with
    | None => None
    | Some s' => run w s2 s'
    end.
Proof.
  revert s. induction s1 as [| a s1 IH]; intros s; cbn [app run].
  - reflexivity.
  - destruct (step w a s) as [s' |]; [apply IH | reflexivity].
Qed.

(** A property that the initial state has and every step keeps holds
    after every schedule. *)
Lemma run_invariant (P : State -> Prop) :
  (forall a s s', P s -> step w a s = Some s' -> P s') ->
  forall sched s s', P s -> run w sched s = Some s' -> P s'.
Proof.
  intros Hstep sched. induction sched as [| a sched IH]; intros s s' HP Hrun.
  - cbn [run] in Hrun. injection Hrun as <-. exact HP.
  - cbn [run] in Hrun. destruct (step w a s) as [s1 |] eqn:E; [| discriminate].
    exact (IH s1 s' (Hstep a s s1 HP E) Hrun).
Qed.

End Runs.

(** Case analysis on a step that was taken. *)
Ltac break_step H :=
  repeat match type of H with
         | context [match ?x with _ => _ end] =>
             destruct x eqn:?; try discriminate H
         end;
  try (injection H as <-).

Ltac step_cases a H :=
  destruct a; cbn [step] in H; unfold step_main in H; break_step H.

Ltac proj :=
  cbn [main listener reader handlers stdin trace
       set_main set_listener set_reader set_handlers set_stdin emit] in *.

(** *** Texts on standard output *)

Lemma login_line_starts (url port : string) :
  starts_with_space (login_line url port) = true.
Proof. reflexivity. Qed.


Lemma resolve_events (w : World) : forallb resolve_event (fst (resolve w)) = true.
Proof.
  unfold resolve.
  repeat match goal with
         | |- context [if ?b then _ else _] => destruct b
         | |- context [match ?x with _ => _ end] => destruct x
         end; reflexivity.
Qed.

Lemma save_events (w : World) (target : Target) (ty v : string) :
  forallb save_event (fst (save w target ty v)) = true.
Proof. unfold save. destruct (SaveTarget _ _ _ _ _ _ _); reflexivity. Qed.

Lemma turn_events (inp : list rune) :
  forallb resolve_event (fst (fst (waitForTokenInput_turn inp))) = true.
Proof.
  unfold waitForTokenInput_turn.
  destruct (err (Scanf inp)); [destruct (negb _) |]; reflexivity.
Qed.

Lemma forallb_impl {A : Type} (f g : A -> bool) (l : list A) :
  (forall x, f x = true -> g x = true) ->
  forallb f l = true -> forallb g l = true.
Proof.
  intros Hfg. induction l as [| x l IH]; cbn [forallb]; [trivial |].
  intros H. apply andb_true_iff in H as [Hx Hl].
  now rewrite (Hfg x Hx), (IH Hl).
Qed.

(** The reader never reaches its send on [errorChannel]: [Scanf] returns
    an error only with fewer than two items. *)
Lemma turn_never_error (inp : list rune) (e : error) :
  snd (fst (waitForTokenInput_turn inp)) <> RSendError e.
Proof.
  unfold waitForTokenInput_turn.
  destruct (Scanf_error_count inp) as [[He Hc] | [He Hc]].
  - rewrite He. discriminate.
  - destruct (err (Scanf inp)) as [e' |]; [| discriminate].
    destruct (Nat.eqb_spec (count (Scanf inp)) 2) as [E | E]; [lia |].
    cbn [negb]. discriminate.
Qed.

Lemma forallb_not_In {A : Type} (f : A -> bool) (l : list A) (x : A) :
  forallb f l = true -> f x = false -> ~ In x l.
Proof.
  intros H Hx Hin. rewrite forallb_forall in H. specialize (H x Hin). congruence.
Qed.

Lemma existsb_false_not_In {A : Type} (f : A -> bool) (l : list A) (x : A) :
  existsb f l = false -> f x = true -> ~ In x l.
Proof.
  intros H Hx Hin.
  assert (E : existsb f l = true) by (apply existsb_exists; eauto).
  congruence.
Qed.

(** *** When the bind fails *)

Lemma resolve_quiet (w : World) :
  forallb quiet (fst (resolve w)) = true
  /\ existsb is_listen (fst (resolve w)) = false.
Proof.
  unfold resolve.
  repeat match goal with
         | |- context [if ?b then _ else _] => destruct b
         | |- context [match ?x with _ => _ end] => destruct x
         end; split; reflexivity.
Qed.

Lemma save_quiet (w : World) (target : Target) (ty v : string) :
  forallb quiet (fst (save w target ty v)) = true
  /\ existsb is_listen (fst (save w target ty v)) = false.
Proof. unfold save. destruct (SaveTarget _ _ _ _ _ _ _); split; reflexivity. Qed.

Lemma bind_failed_init (w : World) (e : error) : bind_failed_inv e (init w).
Proof. unfold bind_failed_inv. cbn. auto. Qed.

Lemma bind_failed_step (w : World) (e : error) :
  net_Listen w = Err e ->
  forall a s s',
    bind_failed_inv e s -> step w a s = Some s' -> bind_failed_inv e s'.
Proof.
  intros HL a s s' (Hr & Hh & Hq & Hl) H.
  unfold bind_failed_inv, outside_race in *.
  pose proof (resolve_quiet w) as [RQ1 RQ2].
  step_cases a H;
    cbn [main listener reader handlers stdin trace
         set_main set_listener set_reader set_handlers set_stdin emit].
  all: try congruence.
  all: try (rewrite Hh in *;
            match goal with
            | E : nth_error [] ?i = Some _ |- _ => destruct i; discriminate E
            end).
  all: repeat match type of Hl with
         | context [match ?x with _ => _ end] => destruct x eqn:?
         end; try contradiction; try congruence.
  all: try (destruct Hl as [Hl1 [t Hl2]]; try congruence).
  all: try (destruct Hl as [Hl1 Hl2]).
  all: simpl in RQ1, RQ2.
  all: try match goal with
           | E : save ?w0 ?t ?ty ?v = _ |- _ =>
               destruct (save_quiet w0 t ty v) as [SQ1 SQ2];
               rewrite E in SQ1, SQ2; simpl in SQ1, SQ2
           end.
  all: rewrite ?forallb_app, ?existsb_app, ?Hq, ?Hl1, ?RQ1, ?RQ2, ?SQ1, ?SQ2.
  all: try contradiction.
  all: repeat apply conj; try assumption; try reflexivity; try congruence; eauto.
Qed.

(** *** The split of the token *)

Lemma split_token_first_space (a b : string) :
  no_space a = true -> split_token (a ++ " " ++ b) = Some (a, b).
Proof.
  intros H. unfold split_token. rewrite (SplitN_first_space a b H). reflexivity.
Qed.

Lemma split_token_no_space (t : string) :
  no_space t = true -> split_token t = None.
Proof.
  intros H. unfold split_token. rewrite (SplitN_no_space t H). reflexivity.
Qed.

Lemma nth_error_snoc {A : Type} (l : list A) (x : A) :
  nth_error (l ++ [x]) (List.length l) = Some x.
Proof. induction l as [| y l IH]; [reflexivity | exact IH]. Qed.

Lemma update_nth_snoc {A : Type} (l : list A) (x y : A) :
  update_nth (List.length l) y (l ++ [x]) = l ++ [y].
Proof.
  induction l as [| z l IH]; [reflexivity |].
  cbn [List.length app update_nth]. now rewrite IH.
Qed.

(** *** One turn of the reader *)

Lemma turn_two_tokens (sp1 k sp2 v tail : list rune) :
  forallb blank sp1 = true -> wordb k = true ->
  sp2 <> [] -> forallb blank sp2 = true -> wordb v = true ->
  stops tail = true ->
  waitForTokenInput_turn (sp1 ++ k ++ sp2 ++ v ++ tail)
  = ([Stdout prompt],
     RSendToken (string_of_runes k ++ " " ++ string_of_runes v)%string,
     tl tail).
Proof.
  intros H1 Hk Hne H2 Hv Ht. unfold waitForTokenInput_turn.
  rewrite (Scanf_two_tokens sp1 k sp2 v tail H1 Hk Hne H2 Hv Ht).
  reflexivity.
Qed.

Lemma turn_malformed (line l : list rune) :
  malformed line ->
  waitForTokenInput_turn (line ++ NL :: l)
  = ([Stdout prompt; Stdout format_hint], RLoop, l).
Proof.
  intros H. unfold waitForTokenInput_turn. destruct H as [sp H | sp1 k sp2 H1 Hk H2].
  - rewrite (Scanf_no_token sp l H). reflexivity.
  - destruct (Scanf_one_token sp1 k sp2 l H1 Hk H2) as [e E].
    rewrite <- !app_assoc. rewrite E. reflexivity.
Qed.

Lemma turn_EOF :
  waitForTokenInput_turn [] = ([Stdout prompt; Stdout format_hint], RLoop, []).
Proof. reflexivity. Qed.

Lemma first_space (s : string) :
  no_space s = false ->
  exists a b, no_space a = true /\ s = (a ++ " " ++ b)%string.
Proof.
  induction s as [| c s IH]; intros H; [discriminate H |].
  cbn [no_space] in H. destruct (Ascii.eqb c " ") eqn:E.
  - apply Ascii.eqb_eq in E. subst c. exists EmptyString, s. split; reflexivity.
  - cbn [negb andb] in H. destruct (IH H) as (a & b & Ha & ->).
    exists (String c a), b. split; [| reflexivity].
    cbn [no_space]. rewrite E, Ha. reflexivity.
Qed.

(** A text with a space in it has its two segments. *)
Lemma split_token_with_space (a b : string) :
  exists x y, split_token (a ++ " " ++ b) = Some (x, y).
Proof.
  assert (H : no_space (a ++ " " ++ b) = false).
  { rewrite no_space_app. cbn [append no_space].
    rewrite Ascii.eqb_refl. cbn [negb andb]. apply andb_false_r. }
  destruct (first_space _ H) as (x & y & Hx & ->).
  exists x, y. apply split_token_first_space. exact Hx.
Qed.

(** What the reader sends always has its two segments. *)
Lemma turn_token_splits (inp : list rune) (tokenStr : string) :
  snd (fst (waitForTokenInput_turn inp)) = RSendToken tokenStr ->
  exists x y, split_token tokenStr = Some (x, y).
Proof.
  unfold waitForTokenInput_turn.
  destruct (err (Scanf inp)); [destruct (negb _); discriminate |].
  cbn [fst snd]. intros H. injection H as <-. apply split_token_with_space.
Qed.

(** *** What the goroutines hold stays consistent with the environment *)

Lemma ordered_app (w : World) (tr evs : list Event) :
  ordered w tr ->
  (forall pre txt post,
      evs = pre ++ Stdout txt :: post ->
      starts_with_space txt = true ->
      exists t n,
        target_ok w t /\ net_Listen w = Ok n
        /\ txt = login_line (URL t) (decimal n)
        /\ In (Recv portChannel (decimal n)) (tr ++ pre)) ->
  ordered w (tr ++ evs).
Proof.
  intros Htr Hevs pre txt post E Hsp.
  apply app_eq_app in E as [l [[E1 E2] | [E1 E2]]].
  - destruct l as [| x l].
    + rewrite app_nil_r in E1. subst pre. cbn [app] in E2.
      destruct (Hevs [] txt post (eq_sym E2) Hsp) as (t & n & H1 & H2 & H3 & H4).
      rewrite app_nil_r in H4. eauto 10.
    + cbn [app] in E2. injection E2 as <- E2.
      exact (Htr pre txt l E1 Hsp).
  - subst pre. exact (Hevs l txt post E2 Hsp).
Qed.

Lemma ordered_app_no_indent (w : World) (tr evs : list Event) :
  ordered w tr -> forallb no_indent evs = true -> ordered w (tr ++ evs).
Proof.
  intros Htr Hevs. apply ordered_app; [exact Htr |].
  intros pre txt post E Hsp. exfalso.
  rewrite forallb_forall in Hevs.
  assert (Hin : In (Stdout txt) evs) by (rewrite E; apply in_elt).
  specialize (Hevs _ Hin). cbn [no_indent] in Hevs. rewrite Hsp in Hevs.
  discriminate Hevs.
Qed.

Lemma resolve_no_indent (w : World) : forallb no_indent (fst (resolve w)) = true.
Proof.
  apply (forallb_impl resolve_event); [| apply resolve_events].
  intros [] H; try discriminate H; try reflexivity. exact H.
Qed.

Lemma save_no_indent (w : World) (t : Target) (ty v : string) :
  forallb no_indent (fst (save w t ty v)) = true.
Proof.
  apply (forallb_impl save_event); [| apply save_events].
  intros [] H; try discriminate H; try reflexivity. exact H.
Qed.

Lemma turn_no_indent (inp : list rune) :
  forallb no_indent (fst (fst (waitForTokenInput_turn inp))) = true.
Proof.
  apply (forallb_impl resolve_event); [| apply turn_events].
  intros [] H; try discriminate H; try reflexivity. exact H.
Qed.

Lemma Forall_update_nth {A : Type} (P : A -> Prop) (i : nat) (x : A) (l : list A) :
  Forall P l -> P x -> Forall P (update_nth i x l).
Proof.
  intros Hl Hx. revert i. induction Hl as [| y l Hy Hl IH]; intros i.
  - destruct i; constructor.
  - destruct i; cbn [update_nth]; constructor; auto.
Qed.

Lemma Forall_nth_error {A : Type} (P : A -> Prop) (i : nat) (x : A) (l : list A) :
  Forall P l -> nth_error l i = Some x -> P x.
Proof.
  intros Hl Hx. rewrite Forall_forall in Hl. apply Hl.
  exact (nth_error_In l i Hx).
Qed.

Lemma consistent_init (w : World) : consistent w (init w).
Proof.
  unfold consistent. cbn. repeat apply conj; auto; try discriminate.
  intros pre txt post E. destruct pre; discriminate E.
Qed.

Lemma consistent_step (w : World) (a : action) (s s' : State) :
  consistent w s -> step w a s = Some s' -> consistent w s'.
Proof.
  intros (Hm & Hl & Hh & Ho & Hp & Hs) H.
  unfold consistent.
  pose proof (resolve_no_indent w) as RN.
  assert (RT : forall t, snd (resolve w) = Ok t -> target_ok w t) by (intros; assumption).
  step_cases a H;
    cbn [main listener reader handlers stdin trace
         set_main set_listener set_reader set_handlers set_stdin emit].
  all: repeat match goal with
         | E : main _ = _ |- _ => rewrite E in *
         | E : listener _ = _ |- _ => rewrite E in *
         end.
  all: cbn [main_ok listener_ok] in *.
  all: simpl in RN, RT.
  all: try match goal with
           | E : save ?w0 ?t ?ty ?v = _ |- _ =>
               pose proof (save_no_indent w0 t ty v) as SN;
               rewrite E in SN; simpl in SN
           end.
  all: try match goal with
           | E : waitForTokenInput_turn ?i = _ |- _ =>
               pose proof (turn_no_indent i) as TN;
               rewrite E in TN; simpl in TN
           end.
  all: repeat apply conj.
  all: try assumption.
  all: try exact I.
  all: try (intros ? ? E; discriminate E).
  all: try (intros ? E; discriminate E).
  all: try (apply ordered_app_no_indent; [assumption |];
            rewrite ?forallb_app; cbn [forallb no_indent];
            rewrite ?RN, ?SN, ?TN; reflexivity).
  all: try (apply RT; reflexivity).
  all: try (intros t' p' E'; apply in_or_app; left; exact (Hp t' p' E')).
  all: try (intros t' E'; destruct (Hs t' E') as (n' & H1 & H2); exists n';
            split; [exact H1 | apply in_or_app; left; exact H2]).
  all: try match type of Hm with _ /\ _ => destruct Hm as [Hm1 Hm2] end.
  all: try match type of Hl with _ /\ _ => destruct Hl as [Hl1 Hl2] end.
  all: try assumption.
  - exists a. split; [apply RT; reflexivity | reflexivity].
  - destruct Hm2 as (n & Hn & ->).
    apply ordered_app; [assumption |].
    intros pre txt post E Hsp.
    assert (Hin : In (Recv portChannel (decimal n)) (trace s))
      by exact (Hp target (decimal n) eq_refl).
    do 5 (destruct pre as [| ? pre];
          [try discriminate E;
           injection E; intros; subst;
           first [discriminate Hsp
                 | exists target, n; repeat apply conj;
                   try assumption; try reflexivity;
                   apply in_or_app; left; exact Hin] |]).
    destruct pre; discriminate E.
  - intros t E. injection E as <-. destruct Hm2 as (n & Hn & ->).
    exists n. split; [exact Hn |]. apply in_or_app. right. cbn. auto.
  - eexists. split; [eassumption | reflexivity].
  - intros t p E. injection E as <- <-. apply in_or_app. right. cbn. auto.
  - apply Forall_app. split; [assumption | constructor; [assumption | constructor]].
  - apply Forall_update_nth; [assumption |].
    match goal with E : nth_error _ _ = Some _ |- _ =>
      exact (Forall_nth_error _ _ _ _ Hh E) end.
  - apply Forall_update_nth; [assumption |].
    match goal with E : nth_error _ _ = Some _ |- _ =>
      pose proof (Forall_nth_error _ _ _ _ Hh E) as Hu end.
    cbn [handler_ok] in Hu |- *. eauto.
Qed.

(** *** One outcome *)

Lemma accepted_app (a b : list Event) : accepted (a ++ b) = accepted a ++ accepted b.
Proof. apply filter_app. Qed.

Lemma saved_app (a b : list Event) : saved (a ++ b) = saved a ++ saved b.
Proof. apply flat_map_app. Qed.

Lemma raced_app (a b : list Event) : raced (a ++ b) = raced a || raced b.
Proof. apply existsb_app. Qed.

Lemma resolve_counts (w : World) :
  accepted (fst (resolve w)) = [] /\ saved (fst (resolve w)) = []
  /\ raced (fst (resolve w)) = false.
Proof.
  unfold resolve.
  repeat match goal with
         | |- context [if ?b then _ else _] => destruct b
         | |- context [match ?x with _ => _ end] => destruct x
         end; repeat split.
Qed.

Lemma save_counts (w : World) (t : Target) (ty v : string) :
  accepted (fst (save w t ty v)) = []
  /\ saved (fst (save w t ty v)) = [{| Type_ := ty; Value := v |}]
  /\ raced (fst (save w t ty v)) = false.
Proof. unfold save. destruct (SaveTarget _ _ _ _ _ _ _); repeat split. Qed.

Lemma turn_counts (inp : list rune) :
  accepted (fst (fst (waitForTokenInput_turn inp))) = []
  /\ saved (fst (fst (waitForTokenInput_turn inp))) = []
  /\ raced (fst (fst (waitForTokenInput_turn inp))) = false.
Proof.
  unfold waitForTokenInput_turn.
  destruct (err (Scanf inp)); [destruct (negb _) |]; repeat split.
Qed.

Lemma single_outcome_init (w : World) : single_outcome_inv (init w).
Proof. repeat split. Qed.

Lemma single_outcome_step (w : World) (a : action) (s s' : State) :
  single_outcome_inv s -> step w a s = Some s' -> single_outcome_inv s'.
Proof.
  intros Hi H. unfold single_outcome_inv in *.
  pose proof (resolve_counts w) as (R1 & R2 & R3).
  step_cases a H;
    cbn [main listener reader handlers stdin trace
         set_main set_listener set_reader set_handlers set_stdin emit].
  all: simpl in R1, R2, R3.
  all: try match goal with
           | E : save ?w0 ?t ?ty ?v = _ |- _ =>
               pose proof (save_counts w0 t ty v) as (S1 & S2 & S3);
               rewrite E in S1, S2, S3; simpl in S1, S2, S3
           end.
  all: try match goal with
           | E : waitForTokenInput_turn ?i = _ |- _ =>
               pose proof (turn_counts i) as (T1 & T2 & T3);
               rewrite E in T1, T2, T3; simpl in T1, T2, T3
           end.
  all: rewrite ?accepted_app, ?saved_app, ?raced_app.
  all: rewrite ?R1, ?R2, ?R3, ?S1, ?S2, ?S3, ?T1, ?T2, ?T3.
  all: cbn [accepted saved raced filter flat_map existsb is_select is_save
            is_go_listener app orb].
  all: rewrite ?app_nil_r, ?orb_false_r.
  all: try exact Hi.
  all: repeat match goal with
         | E : main _ = _ |- _ => rewrite E in Hi
         end.
  all: cbn [single_outcome] in Hi |- *.
  all: unfold saved_outcome in *.
  all: repeat match goal with
         | H : _ /\ _ |- _ => destruct H
         | H : exists _, _ |- _ => destruct H
         end.
  all: repeat match goal with
         | H : accepted _ = _ |- _ => rewrite H
         | H : saved _ = _ |- _ => rewrite H
         | H : raced _ = _ |- _ => rewrite H
         end.
  all: cbn [app orb List.length].
  all: try match goal with
           | |- match ?o with _ => _ end => destruct o
           end.
  all: try solve [repeat split; eauto].
  all: try solve [right; eauto 10].
  all: unfold outcome_of.
  all: try solve [repeat split; eauto].
  all: try solve [left; repeat split; eauto].
Qed.

(** *** The password grant *)

Lemma resolve_password_events (w : World) :
  existsb is_race_event (fst (resolve w)) = false
  /\ filter is_password_grant (fst (resolve w)) = [].
Proof.
  unfold resolve.
  repeat match goal with
         | |- context [if ?b then _ else _] => destruct b
         | |- context [match ?x with _ => _ end] => destruct x
         end; repeat split.
Qed.

Lemma save_password_events (w : World) (t : Target) (ty v : string) :
  existsb is_race_event (fst (save w t ty v)) = false
  /\ filter is_password_grant (fst (save w t ty v)) = [].
Proof. unfold save. destruct (SaveTarget _ _ _ _ _ _ _); repeat split. Qed.

Lemma passwordGrant_Ok (w : World) (t : Target) (ty v : string) :
  passwordGrant t (Username (command w)) (Password (command w)) = Ok (ty, v) ->
  exchanged w t ty v.
Proof.
  unfold passwordGrant, exchanged.
  destruct (PasswordGrant t _ _) as [[ty' v'] | e]; [| discriminate].
  cbn. intros H. injection H as -> ->. reflexivity.
Qed.

Lemma passwordGrant_Err (t : Target) (u p : string) (e : error) :
  passwordGrant t u p = Err e -> PasswordGrant t u p = Err e.
Proof.
  unfold passwordGrant. destruct (PasswordGrant t u p); [discriminate |].
  intros H. injection H as ->. reflexivity.
Qed.

Lemma password_init (w : World) (target : Target) : password_inv w target (init w).
Proof. repeat split. Qed.

Lemma password_step (w : World) (evs : list Event) (target : Target) :
  resolve w = (evs, Ok target) ->
  password_supplied w = true ->
  forall a s s',
    password_inv w target s -> step w a s = Some s' -> password_inv w target s'.
Proof.
  intros Hres Hpw a s s' (Hl & Hr & Hh & Hq & Hm) H.
  unfold password_inv.
  pose proof (resolve_password_events w) as (R1 & R2).
  pose proof (resolve_counts w) as (_ & R3 & _).
  step_cases a H;
    cbn [main listener reader handlers stdin trace
         set_main set_listener set_reader set_handlers set_stdin emit].
  all: try congruence.
  all: try (rewrite Hh in *;
            match goal with
            | E : nth_error [] ?i = Some _ |- _ => destruct i; discriminate E
            end).
  all: repeat match goal with
         | E : main _ = _ |- _ => rewrite E in Hm
         end.
  all: try contradiction.
  all: simpl in R1, R2, R3.
  all: try match goal with
           | E : save ?w0 ?t ?ty ?v = _ |- _ =>
               pose proof (save_password_events w0 t ty v) as (S1 & S2);
               pose proof (save_counts w0 t ty v) as (_ & S3 & _);
               rewrite E in S1, S2, S3; simpl in S1, S2, S3
           end.
  all: try (injection Hres as <- <-).
  all: unfold one_exchange in *.
  all: rewrite ?existsb_app, ?filter_app, ?saved_app, ?Hm, ?Hq, ?R1, ?R2, ?R3,
         ?S1, ?S2, ?S3.
  all: cbn [existsb is_race_event filter is_password_grant saved flat_map
            app orb].
  all: rewrite ?app_nil_r.
  - repeat apply conj; try assumption; try reflexivity.
    apply passwordGrant_Ok. assumption.
  - repeat apply conj; try assumption; try reflexivity.
    left. split; [| reflexivity]. apply passwordGrant_Err. assumption.
  - destruct Hm as (-> & Hex & Hone & Hsv). rewrite Hone, Hsv. cbn [app].
    destruct o; repeat apply conj; try assumption; try reflexivity; eauto.
Qed.

End LoginFacts.

(* ================================================================= *)
(** ** Further facts about the scanner and the runs *)

Module FlowFacts.
Import GoStrings Fmt Login Predicates.
Import GoStringsFacts FmtFacts Utf8Facts LoginFacts.

Local Open Scope list_scope.

(** *** The configuration and the choice of the grant *)

Lemma not_supplied (w : World) :
  Username (command w) = EmptyString \/ Password (command w) = EmptyString ->
  password_supplied w = false.
Proof.
  unfold password_supplied, nonempty. intros [-> | ->]; cbn.
  - reflexivity.
  - apply andb_false_r.
Qed.

Ltac projg :=
  cbn [main listener reader handlers stdin trace
       set_main set_listener set_reader set_handlers set_stdin emit].

Lemma nth_error_nil_Some {A : Type} (i : nat) (x : A) :
  nth_error (@nil A) i = Some x -> False.
Proof. destruct i; discriminate. Qed.

Lemma config_failed_step (w : World) (e : error) :
  snd (resolve w) = Err e ->
  forall a s s',
    config_failed_inv w e s -> step w a s = Some s' -> config_failed_inv w e s'.
Proof.
  intros Hres a s s' (Hl & Hr & Hh & Hm) H.
  unfold config_failed_inv.
  step_cases a H; projg.
  all: try congruence.
  all: try (rewrite Hh in *; exfalso; eapply nth_error_nil_Some; eassumption).
  all: try (destruct Hm as [[Hm _] | [Hm _]]; congruence).
  all: destruct Hm as [[Hm Ht] | [Hm _]]; try congruence.
  all: cbn [snd fst] in *.
  all: try discriminate.
  injection Hres as ->. rewrite Ht. cbn [app].
  repeat apply conj; auto.
Qed.

Lemma resolve_event_shape (ev : Event) :
  resolve_event ev = true ->
  (exists path, ev = CallReadFile path) \/ (exists txt, ev = Stdout txt).
Proof. destruct ev; try discriminate; eauto. Qed.

Lemma turn_password_events (inp : list rune) :
  filter is_password_grant (fst (fst (waitForTokenInput_turn inp))) = [].
Proof.
  unfold waitForTokenInput_turn.
  destruct (err (Scanf inp)); [destruct (negb _) |]; reflexivity.
Qed.

Lemma no_grant_step (w : World) :
  password_supplied w = false ->
  forall a s s',
    filter is_password_grant (trace s) = [] -> step w a s = Some s' ->
    filter is_password_grant (trace s') = [].
Proof.
  intros Hpw a s s' Hi H.
  pose proof (resolve_password_events w) as (_ & R).
  step_cases a H; projg.
  all: try congruence.
  all: simpl in R.
  all: try match goal with
           | E : save ?w0 ?t ?ty ?v = _ |- _ =>
               pose proof (save_password_events w0 t ty v) as (_ & S);
               rewrite E in S; simpl in S
           end.
  all: try match goal with
           | E : waitForTokenInput_turn ?i = _ |- _ =>
               pose proof (turn_password_events i) as T;
               rewrite E in T; simpl in T
           end.
  all: rewrite ?filter_app, ?Hi, ?R, ?S, ?T; try reflexivity.
Qed.

(** *** Errors on [errorChannel] *)

Lemma resolve_errors (w : World) : filter is_error_recv (fst (resolve w)) = [].
Proof.
  unfold resolve.
  repeat match goal with
         | |- context [if ?b then _ else _] => destruct b
         | |- context [match ?x with _ => _ end] => destruct x
         end; reflexivity.
Qed.

Lemma save_errors (w : World) (t : Target) (ty v : string) :
  filter is_error_recv (fst (save w t ty v)) = [].
Proof. unfold save. destruct (SaveTarget _ _ _ _ _ _ _); reflexivity. Qed.

Lemma turn_errors (inp : list rune) :
  filter is_error_recv (fst (fst (waitForTokenInput_turn inp))) = [].
Proof.
  unfold waitForTokenInput_turn.
  destruct (err (Scanf inp)); [destruct (negb _) |]; reflexivity.
Qed.

Lemma error_init (w : World) : error_inv (init w).
Proof.
  unfold error_inv.
  split; [intros e; discriminate |].
  split; [left; reflexivity | apply single_outcome_init].
Qed.

Lemma error_step (w : World) (a : action) (s s' : State) :
  error_inv s -> step w a s = Some s' -> error_inv s'.
Proof.
  intros (Hr & He & Hso) H.
  pose proof (single_outcome_step w a s s' Hso H) as Hso'.
  unfold error_inv. split; [| split; [| exact Hso']]. 
  - clear He. step_cases a H; projg; try apply Hr; try discriminate.
    intros e. pose proof (turn_never_error (stdin s) e) as T.
    match goal with E : waitForTokenInput_turn _ = _ |- _ => rewrite E in T end.
    cbn [fst snd] in T. congruence.
  - pose proof (resolve_errors w) as R.
    pose proof (resolve_counts w) as (_ & R2 & _).
    unfold single_outcome_inv in Hso.
    step_cases a H; projg.
    all: simpl in R, R2.
    all: try match goal with
             | E : save ?w0 ?t ?ty ?v = _ |- _ =>
                 pose proof (save_errors w0 t ty v) as S;
                 rewrite E in S; simpl in S
             end.
    all: try match goal with
             | E : waitForTokenInput_turn ?i = _ |- _ =>
                 pose proof (turn_errors i) as T;
                 pose proof (turn_counts i) as (_ & T2 & _);
                 rewrite E in T, T2; simpl in T, T2
             end.
    all: rewrite ?filter_app, ?saved_app, ?R, ?R2, ?S, ?T, ?T2.
    all: cbn [filter is_error_recv saved flat_map app].
    all: rewrite ?app_nil_r.
    all: try (exfalso; eapply Hr; eassumption).
    all: try exact He.
    all: destruct He as [He | (e0 & He & Hm & Hl & Hs)]; try congruence.
    all: try (left; rewrite He; reflexivity).
    right. eexists. rewrite He. cbn [app].
    cbn [single_outcome] in Hso. destruct Hso as (_ & Hsv & _).
    repeat apply conj; auto.
Qed.

(** *** Counting events and handlers *)

Lemma how_many_app {A : Type} (f : A -> bool) (a b : list A) :
  how_many f (a ++ b) = how_many f a + how_many f b.
Proof. unfold how_many. now rewrite filter_app, List.length_app. Qed.

Lemma how_many_update {A : Type} (f : A -> bool) (i : nat) (x y : A) (l : list A) :
  nth_error l i = Some y ->
  how_many f (update_nth i x l) + (if f y then 1 else 0)
  = how_many f l + (if f x then 1 else 0).
Proof.
  revert i. induction l as [| z l IH]; intros i H.
  - destruct i; discriminate H.
  - destruct i as [| i]; cbn [nth_error update_nth] in *.
    + injection H as ->. unfold how_many. cbn [filter].
      destruct (f x), (f y); cbn [List.length]; lia.
    + specialize (IH i H). unfold how_many in *. cbn [filter].
      destruct (f z); cbn [List.length]; lia.
Qed.

Lemma how_many_zero_Forall {A : Type} (f : A -> bool) (l : list A) :
  how_many (fun x => negb (f x)) l = 0 -> Forall (fun x => f x = true) l.
Proof.
  unfold how_many. induction l as [| x l IH]; cbn [filter]; [constructor |].
  destruct (f x) eqn:E; cbn [negb List.length]; intros H; [| discriminate].
  constructor; auto.
Qed.

Lemma how_many_In {A : Type} (f : A -> bool) (l : list A) (x : A) :
  In x l -> f x = true -> 1 <= how_many f l.
Proof.
  intros Hin Hx. unfold how_many.
  assert (Hf : In x (filter f l)) by (apply filter_In; auto).
  destruct (filter f l); [contradiction | cbn; lia].
Qed.

Lemma plain_how_many (evs : list Event) :
  forallb plain_event evs = true ->
  how_many is_token_recv evs = 0 /\ how_many is_other_recv evs = 0
  /\ how_many is_redirect evs = 0.
Proof.
  unfold how_many. induction evs as [| ev evs IH]; cbn [forallb filter]; [auto |].
  intros H. apply andb_true_iff in H as [Hev H]. specialize (IH H).
  unfold plain_event in Hev.
  apply andb_true_iff in Hev as [Hev H3]. apply andb_true_iff in Hev as [H1 H2].
  apply negb_true_iff in H1, H2, H3. rewrite H1, H2, H3. exact IH.
Qed.

Lemma resolve_plain (w : World) : forallb plain_event (fst (resolve w)) = true.
Proof.
  apply (forallb_impl resolve_event); [| apply resolve_events].
  intros [] H; try discriminate H; reflexivity.
Qed.

Lemma save_plain (w : World) (t : Target) (ty v : string) :
  forallb plain_event (fst (save w t ty v)) = true.
Proof.
  apply (forallb_impl save_event); [| apply save_events].
  intros [] H; try discriminate H; reflexivity.
Qed.

Lemma turn_plain (inp : list rune) :
  forallb plain_event (fst (fst (waitForTokenInput_turn inp))) = true.
Proof.
  apply (forallb_impl resolve_event); [| apply turn_events].
  intros [] H; try discriminate H; reflexivity.
Qed.

Lemma answered_init (w : World) : answered_inv (init w).
Proof. unfold answered_inv. cbn. auto. Qed.

Lemma answered_step (w : World) (a : action) (s s' : State) :
  answered_inv s -> step w a s = Some s' -> answered_inv s'.
Proof.
  intros (Ha & Hd & Hle & Hb) H. unfold answered_inv.
  pose proof (plain_how_many _ (resolve_plain w)) as (R1 & R2 & R3).
  step_cases a H; projg.
  all: simpl in R1, R2, R3.
  all: try match goal with
           | E : save ?w0 ?t ?ty ?v = _ |- _ =>
               pose proof (plain_how_many _ (save_plain w0 t ty v)) as (S1 & S2 & S3);
               rewrite E in S1, S2, S3; simpl in S1, S2, S3
           end.
  all: try match goal with
           | E : waitForTokenInput_turn ?i = _ |- _ =>
               pose proof (plain_how_many _ (turn_plain i)) as (T1 & T2 & T3);
               rewrite E in T1, T2, T3; simpl in T1, T2, T3
           end.
  all: try match goal with
           | E : nth_error ?hs ?i = Some ?y |- context [update_nth ?i ?x _] =>
               pose proof (how_many_update (fun h => negb (is_HSend h)) i x y _ E) as U1;
               pose proof (how_many_update is_HDone i x y _ E) as U2;
               cbn [is_HSend is_HDone negb] in U1, U2
           end.
  all: repeat match goal with
         | E : main _ = _ |- _ => rewrite E in Hb
         end.
  all: cbn [before_outcome] in Hb |- *.
  all: try specialize (Hb eq_refl).
  all: rewrite ?how_many_app, ?R1, ?R2, ?R3, ?S1, ?S2, ?S3, ?T1, ?T2, ?T3.
  all: unfold how_many at 1 in |- *.
  all: unfold how_many in *.
  all: cbn [filter is_token_recv is_other_recv is_redirect is_HSend is_HDone
            negb List.length app] in *.
  all: repeat apply conj; intros; try lia; try discriminate.
  all: match goal with H : before_outcome _ = true |- _ => specialize (Hb H) end; lia.
Qed.

(** *** The replies of the handlers *)

Lemma redirect_ok_plain (w : World) (evs : list Event) :
  forallb plain_event evs = true -> Forall (redirect_ok w) evs.
Proof.
  intros H. apply Forall_forall. intros ev Hin.
  rewrite forallb_forall in H. specialize (H ev Hin).
  destruct ev; try exact I. discriminate H.
Qed.

Lemma redirects_step (w : World) (a : action) (s s' : State) :
  consistent w s /\ Forall (redirect_ok w) (trace s) ->
  step w a s = Some s' ->
  consistent w s' /\ Forall (redirect_ok w) (trace s').
Proof.
  intros [Hc Hf] H. split; [exact (consistent_step w a s s' Hc H) |].
  destruct Hc as (_ & _ & Hh & _).
  pose proof (redirect_ok_plain w _ (resolve_plain w)) as R.
  step_cases a H; projg; try exact Hf.
  all: simpl in R.
  all: try match goal with
           | E : save ?w0 ?t ?ty ?v = _ |- _ =>
               pose proof (redirect_ok_plain w0 _ (save_plain w0 t ty v)) as S;
               rewrite E in S; simpl in S
           end.
  all: try match goal with
           | E : waitForTokenInput_turn ?i = _ |- _ =>
               pose proof (redirect_ok_plain w _ (turn_plain i)) as T;
               rewrite E in T; simpl in T
           end.
  all: apply Forall_app; split; try assumption.
  all: try (apply Forall_app; split; try assumption).
  all: try match goal with
           | E : nth_error _ _ = Some (HRedirect _) |- _ =>
               pose proof (Forall_nth_error _ _ _ _ Hh E) as Hu;
               cbn [handler_ok] in Hu; destruct Hu as (t & Ht & ->);
               constructor; [| constructor];
               split; [reflexivity | exists t; auto]
           end.
  all: repeat constructor.
Qed.

(** *** The starts of the goroutines *)

Lemma idle_how_many (evs : list Event) :
  forallb idle_event evs = true ->
  how_many is_go_listener evs = 0 /\ how_many is_listen evs = 0
  /\ how_many is_port_recv evs = 0 /\ how_many is_go_reader evs = 0.
Proof.
  unfold how_many. induction evs as [| ev evs IH]; cbn [forallb filter]; [auto |].
  intros H. apply andb_true_iff in H as [Hev H]. specialize (IH H).
  unfold idle_event in Hev.
  apply andb_true_iff in Hev as [Hev H4]. apply andb_true_iff in Hev as [Hev H3].
  apply andb_true_iff in Hev as [H1 H2].
  apply negb_true_iff in H1, H2, H3, H4. rewrite H1, H2, H3, H4. exact IH.
Qed.

Lemma resolve_idle (w : World) : forallb idle_event (fst (resolve w)) = true.
Proof.
  apply (forallb_impl resolve_event); [| apply resolve_events].
  intros [] H; try discriminate H; reflexivity.
Qed.

Lemma save_idle (w : World) (t : Target) (ty v : string) :
  forallb idle_event (fst (save w t ty v)) = true.
Proof.
  apply (forallb_impl save_event); [| apply save_events].
  intros [] H; try discriminate H; reflexivity.
Qed.

Lemma turn_idle (inp : list rune) :
  forallb idle_event (fst (fst (waitForTokenInput_turn inp))) = true.
Proof.
  apply (forallb_impl resolve_event); [| apply turn_events].
  intros [] H; try discriminate H; reflexivity.
Qed.

Lemma starts_app (a b : list Event) :
  starts (a ++ b)
  = (how_many is_go_listener a + how_many is_go_listener b,
     how_many is_listen a + how_many is_listen b,
     how_many is_port_recv a + how_many is_port_recv b,
     how_many is_go_reader a + how_many is_go_reader b).
Proof. unfold starts. now rewrite !how_many_app. Qed.

Lemma once_init (w : World) : once_inv (init w).
Proof. unfold once_inv. cbn. auto. Qed.

Ltac solve_once :=
  first [ solve [split; [repeat f_equal; lia | trivial]]
        | solve [left; solve_once]
        | solve [right; solve_once] ].

Lemma once_step (w : World) (a : action) (s s' : State) :
  once_inv s -> step w a s = Some s' -> once_inv s'.
Proof.
  intros Hi H. unfold once_inv in *. cbv zeta in *.
  pose proof (idle_how_many _ (resolve_idle w)) as (R1 & R2 & R3 & R4).
  step_cases a H; projg.
  all: simpl in R1, R2, R3, R4.
  all: try match goal with
           | E : save ?w0 ?t ?ty ?v = _ |- _ =>
               pose proof (idle_how_many _ (save_idle w0 t ty v)) as (S1 & S2 & S3 & S4);
               rewrite E in S1, S2, S3, S4; simpl in S1, S2, S3, S4
           end.
  all: try match goal with
           | E : waitForTokenInput_turn ?i = _ |- _ =>
               pose proof (idle_how_many _ (turn_idle i)) as (T1 & T2 & T3 & T4);
               rewrite E in T1, T2, T3, T4; simpl in T1, T2, T3, T4
           end.
  all: repeat match goal with
         | E : main _ = _ |- _ => rewrite E in Hi
         | E : listener _ = _ |- _ => rewrite E in Hi
         end.
  all: rewrite ?starts_app, ?R1, ?R2, ?R3, ?R4, ?S1, ?S2, ?S3, ?S4,
         ?T1, ?T2, ?T3, ?T4.
  all: unfold starts in *.
  all: repeat match goal with
         | |- context [match ?x with _ => _ end] => destruct x eqn:?
         end.
  all: try (repeat match type of Hi with
                   | context [match ?x with _ => _ end] => destruct x eqn:?
                   end).
  all: cbn [outside_race at_MWaitPort at_MGotPort past_port] in *.
  all: repeat match goal with
         | H : _ \/ _ |- _ => destruct H
         | H : _ /\ _ |- _ => destruct H
         | H : (_, _, _, _) = (_, _, _, _) |- _ => injection H as ? ? ? ?
         end.
  all: try contradiction.
  all: unfold how_many in *.
  all: cbn [filter is_go_listener is_listen is_port_recv is_go_reader
            List.length] in *.
  all: try congruence.
  all: rewrite ?filter_app, ?List.length_app.
  all: cbn [filter is_go_listener is_listen is_port_recv is_go_reader
            List.length] in *.
  all: solve_once.
Qed.

(** *** The call of [rc.SaveTarget] *)

Lemma resolve_saves (w : World) :
  filter is_save (fst (resolve w)) = []
  /\ existsb is_saved_text (fst (resolve w)) = false.
Proof.
  unfold resolve.
  repeat match goal with
         | |- context [if ?b then _ else _] => destruct b
         | |- context [match ?x with _ => _ end] => destruct x
         end; split; reflexivity.
Qed.

Lemma turn_saves (inp : list rune) :
  filter is_save (fst (fst (waitForTokenInput_turn inp))) = []
  /\ existsb is_saved_text (fst (fst (waitForTokenInput_turn inp))) = false.
Proof.
  unfold waitForTokenInput_turn.
  destruct (err (Scanf inp)); [destruct (negb _) |]; split; reflexivity.
Qed.

Lemma save_step (w : World) (a : action) (s s' : State) :
  consistent w s /\ save_inv w s ->
  step w a s = Some s' ->
  consistent w s' /\ save_inv w s'.
Proof.
  intros [Hc Hi] H. split; [exact (consistent_step w a s s' Hc H) |].
  destruct Hc as (Hm & _).
  unfold save_inv in *. cbv zeta in *.
  pose proof (resolve_saves w) as (R1 & R2).
  step_cases a H; projg.
  all: simpl in R1, R2.
  all: try match goal with
           | E : waitForTokenInput_turn ?i = _ |- _ =>
               pose proof (turn_saves i) as (T1 & T2);
               rewrite E in T1, T2; simpl in T1, T2
           end.
  all: repeat match goal with
         | E : main _ = _ |- _ => rewrite E in Hi, Hm
         end.
  all: rewrite ?filter_app, ?existsb_app, ?R1, ?R2, ?T1, ?T2.
  all: cbn [filter existsb is_save is_saved_text app orb].
  all: rewrite ?app_nil_r, ?orb_false_r.
  all: try exact Hi.
  all: try (destruct Hi as [Hi1 Hi2]; rewrite ?Hi1, ?Hi2).
  all: try solve [left; repeat split; discriminate].
  right.
  match goal with E : save _ ?t ?ty ?v = _ |- _ =>
    exists t, {| Type_ := ty; Value := v |}; unfold save in E;
    change (SaveTarget w (Fly_Target w) (URL t) (Insecure (command w))
              (Team_Name t) {| Type_ := ty; Value := v |} (Target_CACert t))
      with (save_result w t {| Type_ := ty; Value := v |}) in E;
    destruct (save_result w t {| Type_ := ty; Value := v |}) as [e |];
    injection E as <- <-
  end.
  all: cbn [main_ok] in Hm.
  all: rewrite ?filter_app; cbn [filter is_save existsb is_saved_text app orb].
  all: repeat apply conj; try assumption; try reflexivity.
Qed.

Lemma existsb_saved_text (tr : list Event) :
  existsb is_saved_text tr = true <-> In (Stdout ("target saved" ++ nl)%string) tr.
Proof.
  rewrite existsb_exists. split.
  - intros (ev & Hin & Hev). destruct ev; try discriminate Hev.
    cbn [is_saved_text] in Hev. apply String.eqb_eq in Hev. now subst.
  - intros Hin. eexists. split; [exact Hin |]. cbn [is_saved_text].
    apply String.eqb_refl.
Qed.

(** *** What the scanner leaves of its input *)

Lemma leaves_trans (l : list rune) (s1 s2 : ss) :
  leaves l s1 -> leaves (input s1) s2 -> leaves l s2.
Proof.
  intros ((p1 & E1) & U1 & N1) ((p2 & E2) & U2 & N2).
  repeat apply conj.
  - exists (p1 ++ p2). rewrite <- app_assoc, <- E2. exact E1.
  - exact U2.
  - intros H. destruct (N2 H) as [E | L]; [left; exact E | right].
    assert (List.length (input s1) <= List.length l).
    { rewrite E1, List.length_app. lia. }
    lia.
Qed.

Lemma leaves_cons (r : rune) (l : list rune) (s : ss) :
  leaves l s -> leaves (r :: l) s.
Proof.
  intros ((p & E) & U & N). repeat apply conj.
  - exists (r :: p). cbn [app]. now rewrite <- E.
  - exact U.
  - intros H. right. destruct (N H) as [E0 | L].
    + rewrite E0. cbn. lia.
    + cbn [List.length]. lia.
Qed.

Lemma leaves_here (l : list rune) : l <> [] -> leaves l (mk_ss l true).
Proof.
  intros H. repeat apply conj; cbn [input unread].
  - exists []. reflexivity.
  - intros _. exact H.
  - discriminate.
Qed.

Lemma leaves_end (l : list rune) : leaves l (mk_ss [] false).
Proof.
  repeat apply conj; cbn [input unread].
  - exists l. now rewrite app_nil_r.
  - discriminate.
  - intros _. left. reflexivity.
Qed.

Lemma leaves_tail (r : rune) (l : list rune) : leaves (r :: l) (mk_ss l false).
Proof.
  repeat apply conj; cbn [input unread].
  - exists [r]. reflexivity.
  - discriminate.
  - intros _. right. cbn. lia.
Qed.

Lemma SkipSpace_leaves (l : list rune) :
  match SkipSpace l with
  | Done _ s =>
      leaves l s
      /\ match input s with
         | [] => True
         | r :: _ => notSpace r = true
         end
  | Panic _ s => leaves l s
  end.
Proof.
  induction l as [| r l IH]; cbn [SkipSpace].
  - split; [apply leaves_end | exact I].
  - destruct ((r =? CR)%Z && peek_nl l).
    + destruct (SkipSpace l) as [u s | e s].
      * destruct IH as [IH1 IH2]. split; [now apply leaves_cons | exact IH2].
      * now apply leaves_cons.
    + destruct (r =? NL)%Z; [apply leaves_tail |].
      destruct (isSpace r) eqn:Hs; cbn [negb].
      * destruct (SkipSpace l) as [u s | e s].
        -- destruct IH as [IH1 IH2]. split; [now apply leaves_cons | exact IH2].
        -- now apply leaves_cons.
      * split; [apply leaves_here; discriminate |].
        cbn [input]. unfold notSpace. now rewrite Hs.
Qed.

Lemma token_loop_leaves (f : rune -> bool) (l : list rune) (buf : string) :
  exists k s,
    token_loop f l buf = Done (fold_left writeRune k buf) s
    /\ l = k ++ input s
    /\ forallb f k = true
    /\ (unread s = true -> input s <> [])
    /\ (unread s = false -> input s = []).
Proof.
  revert buf. induction l as [| r l IH]; intros buf; cbn [token_loop].
  - exists [], (mk_ss [] false). repeat apply conj; try reflexivity.
    discriminate.
  - destruct (f r) eqn:Hf.
    + destruct (IH (writeRune buf r)) as (k & s & E & El & Hk & U & N).
      exists (r :: k), s. rewrite E. cbn [fold_left app forallb].
      rewrite Hf, <- El. repeat apply conj; auto.
    + exists [], (mk_ss (r :: l) true). repeat apply conj; try reflexivity.
      * intros _. discriminate.
      * discriminate.
Qed.

Lemma leaves_length (l : list rune) (s : ss) :
  leaves l s -> l <> [] -> List.length (remaining s) < List.length l.
Proof.
  intros ((p & E) & U & N) Hne. unfold remaining.
  assert (Hle : List.length (input s) <= List.length l).
  { rewrite E, List.length_app. lia. }
  destruct (unread s).
  - specialize (U eq_refl). destruct (input s); [contradiction |].
    cbn [tl List.length] in *. lia.
  - destruct (N eq_refl) as [E0 | L]; [| exact L].
    rewrite E0. destruct l; [contradiction | cbn; lia].
Qed.

Lemma leaves_suffix (l : list rune) (s : ss) :
  leaves l s -> exists pre, l = pre ++ input s.
Proof. intros H. apply H. Qed.

(** A verb that returns has read a token: one or more runes that are not
    spaces, taken from the input. *)
Lemma scan_verb_Done (l : list rune) (a : string) (s : ss) :
  scan_verb l = Done a s ->
  exists pre k,
    k <> [] /\ forallb notSpace k = true /\ a = string_of_runes k
    /\ l = pre ++ k ++ input s /\ leaves l s.
Proof.
  unfold scan_verb. pose proof (SkipSpace_leaves l) as H0.
  destruct (SkipSpace l) as [u0 s0 | e0 s0]; [| discriminate].
  destruct H0 as [L0 Hd0].
  destruct (leaves_suffix _ _ L0) as [pre Epre].
  destruct (input s0) as [| r l'] eqn:E0.
  - discriminate.
  - unfold convertString. rewrite (SkipSpace_at_token r l' Hd0).
    cbn [input notEOF]. unfold token. rewrite (SkipSpace_at_token r l' Hd0).
    cbn [input].
    destruct (token_loop_leaves notSpace (r :: l') EmptyString)
      as (k & s1 & E & El & Hk & U & N).
    rewrite E. intros H. injection H as <- <-.
    assert (Hkne : k <> []).
    { destruct k as [| x k]; [| discriminate].
      cbn [token_loop] in E. rewrite Hd0 in E.
      destruct (token_loop_leaves notSpace l' (writeRune EmptyString r))
        as (k' & s' & E' & _). rewrite E' in E. injection E as E _.
      exfalso. cbn [fold_left] in E.
      rewrite fold_writeRune in E. unfold writeRune in E. cbn [append] in E.
      assert (Hlen : String.length (string_of_bytes (EncodeRune r) ++ string_of_runes k')%string = 0)
        by (rewrite E; reflexivity).
      rewrite GoStringsFacts.length_app in Hlen.
      assert (0 < String.length (string_of_bytes (EncodeRune r))).
      { unfold EncodeRune. cbv zeta.
        repeat match goal with
               | |- context [if ?b then _ else _] => destruct b
               end; cbn; lia. }
      lia. }
    exists pre, k. repeat apply conj; auto.
    + rewrite Epre, El. reflexivity.
    + apply (leaves_trans l s0 s1); [exact L0 |]. rewrite E0.
      repeat apply conj.
      * exists k. exact El.
      * exact U.
      * intros Hu. left. exact (N Hu).
Qed.

Lemma scan_verb_Panic (l : list rune) (e : error) (s : ss) :
  scan_verb l = Panic e s -> leaves l s.
Proof.
  unfold scan_verb. pose proof (SkipSpace_leaves l) as H0.
  destruct (SkipSpace l) as [u0 s0 | e0 s0].
  - destruct H0 as [L0 Hd0]. unfold convertString.
    destruct (input s0) as [| r l'] eqn:E0.
    + cbn [SkipSpace input notEOF]. intros H. injection H as _ <-.
      apply leaves_end.
    + rewrite (SkipSpace_at_token r l' Hd0). cbn [input notEOF].
      unfold token. rewrite (SkipSpace_at_token r l' Hd0). cbn [input].
      destruct (token_loop_leaves notSpace (r :: l') EmptyString)
        as (k & s1 & E & _). rewrite E. discriminate.
  - intros H. injection H as _ <-. exact H0.
Qed.

Lemma advance_spaces_leaves (l : list rune) : l <> [] -> leaves l (advance_spaces l).
Proof.
  induction l as [| r l IH]; [contradiction |]. intros _.
  cbn [advance_spaces]. destruct (isSpace r && negb (r =? NL)%Z).
  - destruct l as [| r' l'].
    + cbn [advance_spaces]. apply leaves_end.
    + apply leaves_cons. apply IH. discriminate.
  - apply leaves_here. discriminate.
Qed.

Lemma advance_leaves (l : list rune) :
  match advance l with
  | Done _ s => leaves l s
  | Panic _ s => leaves l s
  end.
Proof.
  destruct l as [| r l]; cbn [advance]; [apply leaves_end |].
  destruct (negb (isSpace r)); [apply leaves_tail |].
  destruct (r =? NL)%Z; [apply leaves_tail |].
  apply advance_spaces_leaves. discriminate.
Qed.

(** [Scanf] consumes input: on a non-empty input, what it leaves is
    shorter. *)
Lemma Scanf_consumes (inp : list rune) :
  inp <> [] -> List.length (rest (Scanf inp)) < List.length inp.
Proof.
  intros Hne. unfold Scanf.
  destruct (scan_verb inp) as [a0 s0 | e0 s0] eqn:E0.
  - destruct (scan_verb_Done _ _ _ E0) as (_ & _ & _ & _ & _ & _ & L0).
    pose proof (advance_leaves (input s0)) as L1.
    destruct (advance (input s0)) as [u1 s1 | e1 s1].
    + destruct (scan_verb (input s1)) as [a1 s2 | e2 s2] eqn:E2.
      * destruct (scan_verb_Done _ _ _ E2) as (_ & _ & _ & _ & _ & _ & L2).
        cbn [rest]. apply leaves_length; [| exact Hne].
        eapply leaves_trans; [| exact L2]. eapply leaves_trans; eassumption.
      * cbn [rest]. apply leaves_length; [| exact Hne].
        eapply leaves_trans; [| exact (scan_verb_Panic _ _ _ E2)].
        eapply leaves_trans; eassumption.
    + cbn [rest]. apply leaves_length; [| exact Hne].
      eapply leaves_trans; eassumption.
  - cbn [rest]. apply leaves_length; [| exact Hne].
    exact (scan_verb_Panic _ _ _ E0).
Qed.

(** When [Scanf] succeeds, its operands are the texts of two tokens of
    the input. *)
Lemma Scanf_success (inp : list rune) :
  err (Scanf inp) = None ->
  exists p1 k p2 v p3,
    inp = p1 ++ k ++ p2 ++ v ++ p3
    /\ k <> [] /\ v <> []
    /\ forallb notSpace k = true /\ forallb notSpace v = true
    /\ arg0 (Scanf inp) = string_of_runes k
    /\ arg1 (Scanf inp) = string_of_runes v.
Proof.
  unfold Scanf.
  destruct (scan_verb inp) as [a0 s0 | e0 s0] eqn:E0; [| discriminate].
  destruct (scan_verb_Done _ _ _ E0) as (p1 & k & Hk & Fk & -> & El0 & _).
  pose proof (advance_leaves (input s0)) as L1.
  destruct (advance (input s0)) as [u1 s1 | e1 s1]; [| discriminate].
  destruct (leaves_suffix _ _ L1) as [p2 Ep2].
  destruct (scan_verb (input s1)) as [a1 s2 | e2 s2] eqn:E2; [| discriminate].
  destruct (scan_verb_Done _ _ _ E2) as (p2' & v & Hv & Fv & -> & El2 & _).
  intros _. exists p1, k, (p2 ++ p2'), v, (input s2).
  cbn [arg0 arg1]. repeat apply conj; auto.
  rewrite El0, Ep2, El2. now rewrite <- !app_assoc.
Qed.

(** *** The string that the reader sends *)

Lemma string_of_runes_nonempty (k : list rune) :
  k <> [] -> string_of_runes k <> EmptyString.
Proof.
  destruct k as [| r k]; [contradiction |]. intros _ E.
  rewrite string_of_runes_cons in E.
  assert (Hlen : String.length (string_of_bytes (EncodeRune r) ++ string_of_runes k)%string = 0)
    by (rewrite E; reflexivity).
  rewrite GoStringsFacts.length_app in Hlen.
  assert (0 < String.length (string_of_bytes (EncodeRune r))).
  { unfold EncodeRune. cbv zeta.
    repeat match goal with
           | |- context [if ?b then _ else _] => destruct b
           end; cbn; lia. }
  lia.
Qed.

Lemma forallb_token_rune (k : list rune) :
  forallb is_rune k = true -> forallb notSpace k = true ->
  forallb token_rune k = true.
Proof.
  induction k as [| r k IH]; cbn [forallb]; [trivial |].
  intros H1 H2. apply andb_true_iff in H1 as [R1 K1].
  apply andb_true_iff in H2 as [R2 K2].
  unfold token_rune at 1. now rewrite R1, R2, IH.
Qed.

Lemma split_token_spec_Some (s a b : string) :
  split_token s = Some (a, b) <-> no_space a = true /\ s = (a ++ " " ++ b)%string.
Proof.
  split.
  - intros H. destruct (no_space s) eqn:Hs.
    + rewrite (split_token_no_space s Hs) in H. discriminate H.
    + destruct (first_space s Hs) as (a' & b' & Ha' & ->).
      rewrite (split_token_first_space a' b' Ha') in H.
      injection H as <- <-. auto.
  - intros [Ha ->]. exact (split_token_first_space a b Ha).
Qed.

Lemma turn_consumes (inp : list rune) :
  inp <> [] ->
  List.length (snd (waitForTokenInput_turn inp)) < List.length inp.
Proof.
  intros H. pose proof (Scanf_consumes inp H) as L.
  unfold waitForTokenInput_turn.
  destruct (err (Scanf inp)); [destruct (negb _) |]; exact L.
Qed.

Lemma turn_pc (inp : list rune) :
  snd (fst (waitForTokenInput_turn inp)) = RLoop
  \/ exists t, snd (fst (waitForTokenInput_turn inp)) = RSendToken t.
Proof.
  pose proof (fun e => turn_never_error inp e) as H.
  unfold waitForTokenInput_turn in *.
  destruct (err (Scanf inp)) as [e |].
  - destruct (negb _); [left; reflexivity |].
    exfalso. exact (H e eq_refl).
  - right. eexists. reflexivity.
Qed.

Lemma malformed_lines_reprompt (w : World) (lines : list (list rune)) :
  Forall malformed lines ->
  forall (s : State) (good : list rune),
    reader s = Some RLoop ->
    stdin s = with_newlines lines ++ good ->
    run w (repeat AReader (List.length lines)) s
    = Some (set_stdin good (emit (hints lines) s)).
Proof.
  induction 1 as [| line lines Hm Hl IH]; intros s good Hr Hs.
  - cbn [List.length repeat run hints flat_map].
    cbn [with_newlines flat_map app] in Hs.
    destruct s; cbn in *; subst. unfold set_stdin, emit; cbn.
    rewrite app_nil_r. reflexivity.
  - cbn [List.length repeat run step]. rewrite Hr, Hs.
    cbn [with_newlines flat_map]. rewrite <- !app_assoc. cbn [app].
    rewrite (turn_malformed line _ Hm).
    match goal with
    | |- run _ _ ?s1 = _ =>
        rewrite (IH s1 good); [| reflexivity | reflexivity]
    end.
    f_equal. destruct s; cbn in Hr, Hs; subst.
    unfold set_stdin, set_reader, emit; cbn.
    rewrite <- !app_assoc. reflexivity.
Qed.

(** *** From the start to the select *)

(** Two states with the same six fields are the same state. *)
Lemma state_ext (s s' : State) :
  main s = main s' -> listener s = listener s' -> reader s = reader s' ->
  handlers s = handlers s' -> stdin s = stdin s' -> trace s = trace s' ->
  s = s'.
Proof. destruct s, s'; cbn; congruence. Qed.

(** The handshake: the four steps from the start of [Execute] to the
    select. *)
Lemma handshake (w : World) (evs : list Event) (t : Target) (n : N) :
  resolve w = (evs, Ok t) ->
  password_supplied w = false ->
  net_Listen w = Ok n ->
  run w [AMain; AListen; ARecvPort; AMain] (init w)
  = Some (mk_state (MSelect t) (Some (LServing (URL t))) (Some RLoop) []
            (os_Stdin w)
            (evs ++ [Go listenForTokenCallback; CallListen "127.0.0.1:0";
                     Recv portChannel (decimal n)]
                 ++ login_prints (URL t) (decimal n)
                 ++ [Go waitForTokenInput])).
Proof.
  intros Hres Hpw Hn.
  cbn [run step]. unfold step_main. cbn [main init]. rewrite Hres, Hpw.
  proj. rewrite Hn. proj.
  f_equal. apply state_ext; proj; cbn [main listener reader handlers stdin trace init];
    try reflexivity.
  cbn [app]. rewrite <- !app_assoc. reflexivity.
Qed.

(** *** The return of the reader *)

Lemma returned_step (w : World) (a : action) (s s' : State) :
  error_inv s
  /\ (reader s = Some RReturned -> existsb is_stdin_recv (trace s) = true) ->
  step w a s = Some s' ->
  error_inv s'
  /\ (reader s' = Some RReturned -> existsb is_stdin_recv (trace s') = true).
Proof.
  intros [He Hi] H. split; [exact (error_step w a s s' He H) |].
  destruct He as (Hr & _).
  step_cases a H; projg; rewrite ?existsb_app; intros E'.
  all: try discriminate E'.
  all: try (rewrite (Hi E'); reflexivity).
  all: try (exfalso; eapply Hr; eassumption).
  all: try (exfalso; eapply Hr; reflexivity).
  all: try (cbn; apply orb_true_r).
  injection E' as ->.
  pose proof (turn_pc (stdin s)) as T.
  match goal with E : waitForTokenInput_turn _ = _ |- _ => rewrite E in T end.
  cbn [fst snd] in T. destruct T as [T | [t T]]; discriminate T.
Qed.

End FlowFacts.

(* ================================================================= *)
(** ** Properties of the login flow *)

Import GoStrings Fmt Login Predicates.
Import GoStringsFacts FmtFacts Utf8Facts LoginFacts.

Local Open Scope list_scope.

(** *** The callback listener cannot bind *)

(** C1.  When [net.Listen] fails, nothing of the race happens in any run:
    no receive on a channel, no line with the login URL, the reader is
    never started.  The failure itself is not reported: from the failed
    call on, the listener goroutine stays blocked in its send on
    [errorChannel], the main goroutine stays blocked in its receive from
    [portChannel], and no step is enabled, so [Execute] never returns the
    error. *)
Theorem bind_failure_blocks
  (w : World) (e : error) (sched : list action) (s : State) :
  net_Listen w = Err e ->
  run w sched (init w) = Some s ->
  reader s = None /\ handlers s = [] /\
  (forall c msg, ~ In (Recv c msg) (trace s)) /\
  (forall url port, ~ In (Stdout (login_line url port)) (trace s)) /\
  ~ In (Go waitForTokenInput) (trace s) /\
  (In (CallListen "127.0.0.1:0") (trace s) ->
     listener s = Some (LSendError e)
     /\ (exists target, main s = MWaitPort target)
     /\ (forall a, step w a s = None)).
Proof.
  intros HL Hrun.
  pose proof (run_invariant w (bind_failed_inv e) (bind_failed_step w e HL)
                sched (init w) s (bind_failed_init w e) Hrun)
    as (Hr & Hh & Hq & Hl).
  repeat apply conj; try assumption.
  - intros c msg. apply (forallb_not_In quiet); [exact Hq | reflexivity].
  - intros url port. apply (forallb_not_In quiet); [exact Hq | reflexivity].
  - apply (forallb_not_In quiet); [exact Hq | reflexivity].
  - intros Hin.
    assert (Hno : existsb is_listen (trace s) = false -> False).
    { intros Hex. revert Hin.
      apply (existsb_false_not_In is_listen); [exact Hex | reflexivity]. }
    destruct (listener s) as [[u | u p | u | e' |] |] eqn:EL;
      try contradiction; try (exfalso; apply Hno; apply Hl).
    destruct Hl as [-> [t Hm]].
    repeat apply conj; [reflexivity | eauto |].
    intros a.
    destruct a; cbn [step]; unfold step_main; rewrite ?Hm, ?EL, ?Hr, ?Hh;
      try reflexivity; destruct i; reflexivity.
Qed.

(** A run with a port that is already taken: the bind error is still
    unreported after the listener has tried. *)
Lemma bind_failure_blocks_witness :
  let w := sample_world (Err "listen tcp 127.0.0.1:0: bind: permission denied") [] in
  exists s,
    run w [AMain; AListen] (init w) = Some s
    /\ reader s = None
    /\ listener s = Some (LSendError "listen tcp 127.0.0.1:0: bind: permission denied")
    /\ (exists target, main s = MWaitPort target)
    /\ (forall a, step w a s = None).
Proof.
  intros w. eexists. split; [reflexivity |].
  pose proof (bind_failure_blocks w _ [AMain; AListen] _ eq_refl eq_refl)
    as (Hr & _ & _ & _ & _ & Hl).
  split; [exact Hr |]. apply Hl. cbn. auto 10.
Defined.

(** *** The terminal reader *)

(** Whatever the input, the reader never stands at its send on
    [errorChannel]. *)
Lemma reader_never_sends_error
  (w : World) (sched : list action) (s : State) (e : error) :
  run w sched (init w) = Some s -> reader s <> Some (RSendError e).
Proof.
  apply (run_invariant w (fun s => reader s <> Some (RSendError e))).
  - intros a s0 s' H Hs. step_cases a Hs; proj; try assumption; try discriminate.
    pose proof (turn_never_error (stdin s0) e) as T.
    match goal with E : waitForTokenInput_turn _ = _ |- _ => rewrite E in T end.
    cbn [fst snd] in T. congruence.
  - discriminate.
Qed.

(** C2.  With standard input at its end and nothing read, the reader does
    not send an error and does not stop: in every state of every run it is
    not started or at the head of its loop, and a turn there prints the
    prompt and the format hint and leaves it where it was. *)
Theorem reader_at_EOF_loops
  (w : World) (sched : list action) (s : State) :
  os_Stdin w = [] ->
  run w sched (init w) = Some s ->
  stdin s = []
  /\ (reader s = None \/ reader s = Some RLoop)
  /\ (reader s = Some RLoop ->
      step w AReader s = Some (emit [Stdout prompt; Stdout format_hint] s)).
Proof.
  intros Hin Hrun.
  assert (Hinv : stdin s = [] /\ (reader s = None \/ reader s = Some RLoop)).
  { revert Hrun.
    apply (run_invariant w
             (fun s => stdin s = [] /\ (reader s = None \/ reader s = Some RLoop))).
    - intros a s0 s' [Hs Hr] H.
      step_cases a H; proj; try (split; [assumption | auto]);
        try (destruct Hr; congruence).
      rewrite Hs in *. rewrite turn_EOF in *.
      match goal with E : (_, _, _) = (_, _, _) |- _ => injection E as <- <- <- end.
      auto.
    - cbn. auto. }
  destruct Hinv as [Hs Hr]. repeat apply conj; try assumption.
  intros HR. cbn [step]. rewrite HR, Hs, turn_EOF.
  destruct s; cbn in *; subst; reflexivity.
Qed.

(** An empty standard input: three turns of the reader, three prompts
    and three hints, and the reader is still at the head of its loop. *)
Lemma reader_at_EOF_loops_witness :
  let w := sample_world (Ok 45123%N) [] in
  exists s,
    run w [AMain; AListen; ARecvPort; AMain; AReader; AReader; AReader] (init w)
    = Some s
    /\ reader s = Some RLoop
    /\ step w AReader s = Some (emit [Stdout prompt; Stdout format_hint] s).
Proof.
  intros w.
  destruct (run w [AMain; AListen; ARecvPort; AMain; AReader; AReader; AReader]
              (init w)) as [s |] eqn:E;
    [| vm_compute in E; discriminate E].
  exists s. split; [reflexivity |].
  destruct (reader_at_EOF_loops w _ s eq_refl E) as (_ & _ & H).
  assert (Hr : reader s = Some RLoop).
  { vm_compute in E. injection E as <-. reflexivity. }
  split; [exact Hr | exact (H Hr)].
Defined.

(** C8.  A line of two tokens, with blanks before and between them and
    anything after the second that ends it: one turn of the reader prints
    the prompt once and sends the two tokens joined by a space; the select
    takes it, the split gives the two tokens back as the credential, and
    the reader has returned, so that it prompts no more. *)
Theorem manual_two_tokens
  (w : World) (s : State) (target : Target) (sp1 k sp2 v tail : list rune) :
  main s = MSelect target ->
  reader s = Some RLoop ->
  stdin s = sp1 ++ k ++ sp2 ++ v ++ tail ->
  forallb blank sp1 = true -> wordb k = true ->
  sp2 <> [] -> forallb blank sp2 = true -> wordb v = true ->
  stops tail = true ->
  exists s',
    run w [AReader; ASelectStdin; AMain] s = Some s'
    /\ main s' = MGranted target (string_of_runes k) (string_of_runes v)
    /\ reader s' = Some RReturned
    /\ trace s'
       = trace s ++ [Stdout prompt;
                     Recv stdinChannel
                       (string_of_runes k ++ " " ++ string_of_runes v)%string]
    /\ step w AReader s' = None.
Proof.
  intros Hm Hr Hs H1 Hk Hne H2 Hv Ht.
  cbn [run step]. rewrite Hr, Hs.
  rewrite (turn_two_tokens sp1 k sp2 v tail H1 Hk Hne H2 Hv Ht).
  proj. rewrite Hm. cbn [step_main]. unfold step_main. proj.
  rewrite (split_token_first_space _ _ (word_no_space k (wordb_forallb k Hk))).
  eexists. split; [reflexivity |]. proj.
  repeat apply conj; try reflexivity.
  rewrite <- app_assoc. reflexivity.
Qed.

Lemma manual_two_tokens_witness :
  let w := sample_world (Ok 45123%N)
             (runes_of_string ("bearer mytoken123" ++ nl)) in
  exists s s',
    run w [AMain; AListen; ARecvPort; AMain] (init w) = Some s
    /\ run w [AReader; ASelectStdin; AMain] s = Some s'
    /\ main s' = MGranted sample_target "bearer" "mytoken123"
    /\ reader s' = Some RReturned.
Proof.
  intros w. eexists.
  destruct (manual_two_tokens w
              (mk_state (MSelect sample_target)
                 (Some (LServing "https://ci.example.com")) (Some RLoop) []
                 (runes_of_string ("bearer mytoken123" ++ nl))
                 (fst (resolve w) ++ [Go listenForTokenCallback]
                  ++ [CallListen "127.0.0.1:0"] ++ [Recv portChannel "45123"]
                  ++ login_prints "https://ci.example.com" "45123"
                  ++ [Go waitForTokenInput]))
              sample_target [] (runes_of_string "bearer") [32%Z]
              (runes_of_string "mytoken123") [10%Z]
              eq_refl eq_refl eq_refl eq_refl eq_refl
              ltac:(discriminate) eq_refl eq_refl eq_refl)
    as (s' & Hrun & Hmain & Hreader & _).
  exists s'. split; [reflexivity |].
  split; [exact Hrun |]. split; [exact Hmain | exact Hreader].
Defined.

(** C10.  A line with no token or with one token, ended by its newline:
    a turn of the reader prints the prompt and the format hint, consumes
    the line and is back at the head of its loop; nothing is sent, and the
    other goroutines are where they were. *)
Theorem malformed_line_reprompts
  (w : World) (s : State) (line l : list rune) :
  reader s = Some RLoop ->
  malformed line ->
  stdin s = line ++ NL :: l ->
  exists s',
    step w AReader s = Some s'
    /\ reader s' = Some RLoop
    /\ stdin s' = l
    /\ trace s' = trace s ++ [Stdout prompt; Stdout format_hint]
    /\ main s' = main s /\ listener s' = listener s
    /\ handlers s' = handlers s.
Proof.
  intros Hr Hmal Hs. cbn [step]. rewrite Hr, Hs.
  rewrite (turn_malformed line l Hmal).
  eexists. split; [reflexivity |]. proj. repeat apply conj; reflexivity.
Qed.

Lemma malformed_line_reprompts_witness :
  let s := mk_state MStart None (Some RLoop) []
             (runes_of_string ("Bearer" ++ nl ++ "Bearer abc" ++ nl)) [] in
  exists s',
    step (sample_world (Ok 45123%N) []) AReader s = Some s'
    /\ reader s' = Some RLoop
    /\ stdin s' = runes_of_string ("Bearer abc" ++ nl)
    /\ trace s' = [Stdout prompt; Stdout format_hint].
Proof.
  intros s.
  destruct (malformed_line_reprompts (sample_world (Ok 45123%N) []) s
              (runes_of_string "Bearer")
              (runes_of_string ("Bearer abc" ++ nl))
              eq_refl
              (one_token [] (runes_of_string "Bearer") [] eq_refl eq_refl eq_refl)
              eq_refl)
    as (s' & Hstep & Hr & Hs & Ht & _).
  exists s'. repeat apply conj; assumption.
Defined.

(** *** The split of the credential *)

(** C3.  A callback whose token has no space in it (an empty token, a
    request without the parameter): the handler sends it, the select takes
    it, and the index access [segments[1]] is out of range: the main
    goroutine panics. *)
Theorem callback_without_space_panics
  (w : World) (s : State) (target : Target) (url : string) (r : Request) :
  main s = MSelect target ->
  listener s = Some (LServing url) ->
  no_space (FormValue r "token") = true ->
  exists s',
    run w [AAccept r; ASelectToken (List.length (handlers s)); AMain] s = Some s'
    /\ main s' = MPanicked "index out of range".
Proof.
  intros Hm Hl Hns. cbn [run step]. rewrite Hl. proj.
  rewrite Hm, nth_error_snoc. proj. unfold step_main. proj.
  rewrite (split_token_no_space _ Hns).
  eexists. split; reflexivity.
Qed.

(** The browser comes back without a token parameter. *)
Lemma callback_without_space_panics_witness :
  let w := sample_world (Ok 45123%N) [] in
  exists s s',
    run w [AMain; AListen; ARecvPort; AMain] (init w) = Some s
    /\ run w [AAccept {| Form := [("state", "xyz")] |}; ASelectToken 0; AMain] s
       = Some s'
    /\ main s' = MPanicked "index out of range".
Proof.
  intros w.
  destruct (run w [AMain; AListen; ARecvPort; AMain] (init w)) as [s |] eqn:E;
    [| vm_compute in E; discriminate E].
  assert (Hs : main s = MSelect sample_target
               /\ listener s = Some (LServing "https://ci.example.com")
               /\ handlers s = []).
  { vm_compute in E. injection E as <-. repeat split. }
  destruct Hs as (Hm & Hl & Hh).
  destruct (callback_without_space_panics w s sample_target _
              {| Form := [("state", "xyz")] |} Hm Hl eq_refl)
    as (s' & Hrun & Hp).
  rewrite Hh in Hrun.
  exists s, s'. repeat apply conj; [reflexivity | exact Hrun | exact Hp].
Defined.

(** C9, as the spec has it, fails on a line with a third token: the
    value is the second token, the rest of the line is not part of it. *)
Lemma manual_value_drops_rest :
  manual_line_credential (runes_of_string ("Bearer abc def" ++ nl))
  = Some ("Bearer", "abc")
  /\ manual_line_credential (runes_of_string ("Bearer abc def" ++ nl))
     <> Some ("Bearer", "abc def").
Proof. split; [vm_compute; reflexivity | vm_compute; discriminate]. Qed.

(** C9, amended.  The split of [authCodeGrant] cuts a credential string
    at its first space only: what follows, spaces included, is the value.
    A line of manual input reaches the split as its first two tokens
    joined by one space: the credential is these two tokens, and what
    follows the second token on the line stays on standard input. *)
Theorem split_at_first_space_only
  (a b : string) (sp1 k sp2 v tail : list rune) :
  no_space a = true ->
  forallb blank sp1 = true -> wordb k = true ->
  sp2 <> [] -> forallb blank sp2 = true -> wordb v = true ->
  stops tail = true ->
  split_token (a ++ " " ++ b) = Some (a, b)
  /\ manual_line_credential (sp1 ++ k ++ sp2 ++ v ++ tail)
     = Some (string_of_runes k, string_of_runes v)
  /\ snd (waitForTokenInput_turn (sp1 ++ k ++ sp2 ++ v ++ tail)) = tl tail.
Proof.
  intros Ha H1 Hk Hne H2 Hv Ht. split; [exact (split_token_first_space a b Ha) |].
  unfold manual_line_credential.
  rewrite (turn_two_tokens sp1 k sp2 v tail H1 Hk Hne H2 Hv Ht).
  split; [| reflexivity].
  exact (split_token_first_space _ _ (word_no_space k (wordb_forallb k Hk))).
Qed.

Lemma split_at_first_space_only_witness :
  split_token "Bearer abc def" = Some ("Bearer", "abc def")
  /\ manual_line_credential (runes_of_string ("Bearer abc def" ++ nl))
     = Some ("Bearer", "abc")
  /\ snd (waitForTokenInput_turn (runes_of_string ("Bearer abc def" ++ nl)))
     = runes_of_string ("def" ++ nl).
Proof.
  exact (split_at_first_space_only "Bearer" "abc def"
           [] (runes_of_string "Bearer") [32%Z] (runes_of_string "abc")
           (runes_of_string (" def" ++ nl))
           eq_refl eq_refl eq_refl ltac:(discriminate) eq_refl eq_refl eq_refl).
Defined.

(** *** The login URL *)

Lemma login_line_text (targetUrl port : string) :
  login_line targetUrl port
  = ("    " ++ targetUrl ++ "/sky/login?redirect=http://127.0.0.1:" ++ port
       ++ "/auth/callback" ++ nl)%string.
Proof.
  unfold login_line, redirectUrl. cbn [append].
  do 4 f_equal. rewrite !append_assoc. reflexivity.
Qed.

(** C7.  In every run, a line on standard output that has the form of
    the login line is the line for the resolved target and for the port
    that the operating system assigned to the listener, that is
    [<target-url>/sky/login?redirect=http://127.0.0.1:<port>/auth/callback]
    behind its indent, and the receive of that port from [portChannel]
    comes before it in the trace; and once the main goroutine is at the
    select, that line has been printed. *)
Theorem login_url_embeds_port (w : World) (sched : list action) (s : State) :
  run w sched (init w) = Some s ->
  (forall pre url port post,
      trace s = pre ++ Stdout (login_line url port) :: post ->
      exists t n,
        snd (resolve w) = Ok t /\ net_Listen w = Ok n
        /\ login_line url port
           = ("    " ++ URL t ++ "/sky/login?redirect=http://127.0.0.1:"
                ++ decimal n ++ "/auth/callback" ++ nl)%string
        /\ In (Recv portChannel (decimal n)) pre)
  /\ (forall t,
        main s = MSelect t ->
        exists n,
          snd (resolve w) = Ok t /\ net_Listen w = Ok n
          /\ In (Stdout ("    " ++ URL t
                           ++ "/sky/login?redirect=http://127.0.0.1:"
                           ++ decimal n ++ "/auth/callback" ++ nl)%string)
                (trace s)).
Proof.
  intros Hrun.
  pose proof (run_invariant w (consistent w) (consistent_step w)
                sched (init w) s (consistent_init w) Hrun)
    as (Hm & _ & _ & Ho & _ & Hs).
  split.
  - intros pre url port post E.
    destruct (Ho pre _ post E (login_line_starts url port))
      as (t & n & Ht & Hn & Htxt & Hin).
    exists t, n. rewrite <- login_line_text. auto.
  - intros t E. destruct (Hs t E) as (n & Hn & Hin).
    exists n. rewrite <- login_line_text.
    rewrite E in Hm. cbn [main_ok] in Hm. auto.
Qed.

Lemma login_url_embeds_port_witness :
  let w := sample_world (Ok 45123%N) [] in
  exists s,
    run w [AMain; AListen; ARecvPort; AMain] (init w) = Some s
    /\ In (Stdout ("    https://ci.example.com/sky/login?redirect="
                   ++ "http://127.0.0.1:45123/auth/callback" ++ nl)%string)
          (trace s).
Proof.
  intros w.
  destruct (run w [AMain; AListen; ARecvPort; AMain] (init w)) as [s |] eqn:E;
    [| vm_compute in E; discriminate E].
  exists s. split; [reflexivity |].
  destruct (login_url_embeds_port w _ s E) as [_ H].
  assert (Hm : main s = MSelect sample_target)
    by (vm_compute in E; injection E as <-; reflexivity).
  destruct (H sample_target Hm) as (n & _ & Hn & Hin).
  injection Hn as <-. exact Hin.
Defined.

(** *** The callback *)

(** C5.  While the main goroutine is at the select and the server
    serves, a request whose [token] value is ["Bearer abc123"] can be
    taken by the select; the grant then returns the credential
    [("Bearer", "abc123")], and the handler answers with a temporary
    redirect (307) to [<target-url>/public/fly_success]. *)
Theorem callback_bearer
  (w : World) (sched : list action) (s : State) (target : Target)
  (u : string) (r : Request) :
  run w sched (init w) = Some s ->
  main s = MSelect target ->
  listener s = Some (LServing u) ->
  FormValue r "token" = "Bearer abc123" ->
  let i := List.length (handlers s) in
  exists s',
    run w [AAccept r; ASelectToken i; AMain; AHandler i] s = Some s'
    /\ main s' = MGranted target "Bearer" "abc123"
    /\ nth_error (handlers s') i
       = Some (HDone {| StatusCode := 307;
                        Location := (URL target ++ "/public/fly_success")%string |})
    /\ In (CallRedirect (URL target ++ "/public/fly_success")%string 307)
          (trace s').
Proof.
  intros Hrun Hm Hl Hf i.
  pose proof (run_invariant w (consistent w) (consistent_step w)
                sched (init w) s (consistent_init w) Hrun)
    as (Cm & Cl & _).
  rewrite Hm in Cm. rewrite Hl in Cl. cbn [main_ok listener_ok] in Cm, Cl.
  destruct Cl as (t & Ht & ->).
  assert (t = target) by (unfold target_ok in *; congruence). subst t.
  subst i. cbn [run step]. rewrite Hl. proj.
  rewrite Hm, nth_error_snoc, Hf. proj. unfold step_main. proj.
  replace (split_token "Bearer abc123") with (Some ("Bearer", "abc123"))
    by (vm_compute; reflexivity).
  proj. rewrite update_nth_snoc, nth_error_snoc.
  eexists. split; [reflexivity |]. proj.
  rewrite update_nth_snoc, nth_error_snoc.
  repeat apply conj; try reflexivity.
  apply in_or_app. right. left. reflexivity.
Qed.

Lemma callback_bearer_witness :
  let w := sample_world (Ok 45123%N) [] in
  let r := {| Form := [("token", "Bearer abc123")] |} in
  exists s s',
    run w [AMain; AListen; ARecvPort; AMain] (init w) = Some s
    /\ run w [AAccept r; ASelectToken 0; AMain; AHandler 0] s = Some s'
    /\ main s' = MGranted sample_target "Bearer" "abc123"
    /\ nth_error (handlers s') 0
       = Some (HDone {| StatusCode := 307;
                        Location := "https://ci.example.com/public/fly_success" |}).
Proof.
  intros w r.
  destruct (run w [AMain; AListen; ARecvPort; AMain] (init w)) as [s |] eqn:E;
    [| vm_compute in E; discriminate E].
  assert (Hs : main s = MSelect sample_target
               /\ listener s = Some (LServing "https://ci.example.com")
               /\ handlers s = []).
  { vm_compute in E. injection E as <-. repeat split. }
  destruct Hs as (Hm & Hl & Hh).
  destruct (callback_bearer w _ s sample_target _ r E Hm Hl eq_refl)
    as (s' & Hrun & Hg & Hn & _).
  rewrite Hh in Hrun, Hn.
  exists s, s'. repeat apply conj; [reflexivity | exact Hrun | exact Hg | exact Hn].
Defined.

(** *** The race *)

(** C4.  In every run the select takes at most one message and
    [rc.SaveTarget] is called at most once; in the race, a token that is
    saved is the split of the one message that the select took; when
    [Execute] returns without an error exactly one token was saved; and
    once the select has taken a message no case of it is enabled again,
    so that what the other producer sends later is never received. *)
Theorem race_single_outcome (w : World) (sched : list action) (s : State) :
  run w sched (init w) = Some s ->
  List.length (accepted (trace s)) <= 1
  /\ List.length (saved (trace s)) <= 1
  /\ (forall token,
        In token (saved (trace s)) -> raced (trace s) = true ->
        exists c tokenStr,
          accepted (trace s) = [Recv c tokenStr]
          /\ split_token tokenStr = Some (Type_ token, Value token))
  /\ (main s = MReturned None -> List.length (saved (trace s)) = 1)
  /\ (accepted (trace s) <> [] ->
      (forall i, step w (ASelectToken i) s = None)
      /\ step w ASelectStdin s = None
      /\ step w ASelectErrorListener s = None
      /\ step w ASelectErrorReader s = None).
Proof.
  intros Hrun.
  pose proof (run_invariant w single_outcome_inv (single_outcome_step w)
                sched (init w) s (single_outcome_init w) Hrun) as Hi.
  unfold single_outcome_inv in Hi.
  assert (Hso : forall acc sv rc,
             saved_outcome acc sv rc ->
             List.length acc <= 1 /\ List.length sv = 1
             /\ (forall token, In token sv -> rc = true ->
                   exists c tokenStr,
                     acc = [Recv c tokenStr]
                     /\ split_token tokenStr = Some (Type_ token, Value token))).
  { intros acc sv rc (ty & v & -> & Ho). unfold outcome_of in Ho.
    repeat apply conj.
    - destruct rc; [destruct Ho as (c & t & -> & _); cbn; lia | subst acc; cbn; lia].
    - reflexivity.
    - intros token [<- | []] ->. exact Ho. }
  assert (Hlen : forall c tk, List.length [Recv c tk] <= 1) by (cbn; lia).
  assert (Hsel : accepted (trace s) <> [] -> forall t, main s <> MSelect t).
  { intros Hne t Hm. rewrite Hm in Hi. cbn [single_outcome] in Hi.
    apply Hne. apply Hi. }
  assert (Hmain :
            List.length (accepted (trace s)) <= 1
            /\ List.length (saved (trace s)) <= 1
            /\ (forall token,
                  In token (saved (trace s)) -> raced (trace s) = true ->
                  exists c tokenStr,
                    accepted (trace s) = [Recv c tokenStr]
                    /\ split_token tokenStr = Some (Type_ token, Value token))
            /\ (main s = MReturned None -> List.length (saved (trace s)) = 1)).
  { destruct (main s) as [| t | t p | t | t tok | t ty v | [e |] | msg];
      cbn [single_outcome] in Hi.
    - destruct Hi as (Ha & Hs & _). rewrite Ha, Hs.
      repeat apply conj; cbn; try lia; try discriminate; intros; contradiction.
    - destruct Hi as (Ha & Hs & _). rewrite Ha, Hs.
      repeat apply conj; cbn; try lia; try discriminate; intros; contradiction.
    - destruct Hi as (Ha & Hs & _). rewrite Ha, Hs.
      repeat apply conj; cbn; try lia; try discriminate; intros; contradiction.
    - destruct Hi as (Ha & Hs & _). rewrite Ha, Hs.
      repeat apply conj; cbn; try lia; try discriminate; intros; contradiction.
    - destruct Hi as ((c & Ha) & Hs & _). rewrite Ha, Hs.
      repeat apply conj; cbn; try lia; try discriminate; intros; contradiction.
    - destruct Hi as (Hs & Ho). rewrite Hs. unfold outcome_of in Ho.
      repeat apply conj; cbn [List.length In]; try lia; try discriminate;
        try (intros; contradiction).
      destruct (raced (trace s));
        [destruct Ho as (c & tk & -> & _) | rewrite Ho]; cbn; lia.
    - destruct Hi as [[Hl Hs] | Hi].
      + rewrite Hs. repeat apply conj; cbn [List.length In]; try lia;
          try discriminate; intros; contradiction.
      + destruct (Hso _ _ _ Hi) as (H1 & H2 & H3).
        repeat apply conj; try lia; try discriminate; exact H3.
    - destruct (Hso _ _ _ Hi) as (H1 & H2 & H3).
      repeat apply conj; try lia; exact H3.
    - destruct Hi as ((c & tk & Ha) & Hs). rewrite Ha, Hs.
      repeat apply conj; cbn; try lia; try discriminate; intros; contradiction. }
  destruct Hmain as (M1 & M2 & M3 & M4).
  repeat apply conj; try assumption.
  intros Hne. specialize (Hsel Hne).
  repeat apply conj; [intros i | | |]; cbn [step];
    destruct (main s) as [| | | t | | | |]; try reflexivity;
    exfalso; exact (Hsel t eq_refl).
Qed.

(** Both producers have a credential ready: the handler of a callback
    is blocked in its send and the reader in its send.  The select takes
    the callback; the token is saved once; the reader stays blocked in its
    send, which nothing can receive any more. *)
Lemma race_single_outcome_witness :
  let w := sample_world (Ok 45123%N)
             (runes_of_string ("bearer mytoken123" ++ nl)) in
  let r := {| Form := [("token", "Bearer abc123")] |} in
  exists s,
    run w [AMain; AListen; ARecvPort; AMain; AAccept r; AReader;
           ASelectToken 0; AMain; AMain] (init w) = Some s
    /\ main s = MReturned None
    /\ reader s = Some (RSendToken "bearer mytoken123")
    /\ accepted (trace s) = [Recv tokenChannel "Bearer abc123"]
    /\ saved (trace s) = [{| Type_ := "Bearer"; Value := "abc123" |}]
    /\ step w ASelectStdin s = None.
Proof.
  intros w r.
  destruct (run w [AMain; AListen; ARecvPort; AMain; AAccept r; AReader;
                   ASelectToken 0; AMain; AMain] (init w)) as [s |] eqn:E;
    [| vm_compute in E; discriminate E].
  exists s. split; [reflexivity |].
  destruct (race_single_outcome w _ s E) as (_ & _ & _ & _ & H).
  assert (Hs : main s = MReturned None
               /\ reader s = Some (RSendToken "bearer mytoken123")
               /\ accepted (trace s) = [Recv tokenChannel "Bearer abc123"]
               /\ saved (trace s) = [{| Type_ := "Bearer"; Value := "abc123" |}]).
  { vm_compute in E. injection E as <-. repeat split. }
  destruct Hs as (H1 & H2 & H3 & H4).
  repeat apply conj; try assumption.
  apply H. rewrite H3. discriminate.
Defined.

(** *** The password grant *)

(** C6.  With a resolved target and both a user name and a password,
    no run starts the listener, the reader or a handler, and no run
    receives on a channel; the first step of the main goroutine calls
    [PasswordGrant] with the two flags, once, and its token type and
    access token are the credential of the grant and the only token ever
    saved; when the exchange fails, [Execute] returns its error and
    nothing is saved. *)
Theorem password_grant_skips_race
  (w : World) (evs : list Event) (target : Target)
  (sched : list action) (s : State) :
  resolve w = (evs, Ok target) ->
  Username (command w) <> "" ->
  Password (command w) <> "" ->
  run w sched (init w) = Some s ->
  let exchange :=
    PasswordGrant target (Username (command w)) (Password (command w)) in
  (listener s = None /\ reader s = None /\ handlers s = [])
  /\ (forall g, ~ In (Go g) (trace s))
  /\ (forall addr, ~ In (CallListen addr) (trace s))
  /\ (forall c msg, ~ In (Recv c msg) (trace s))
  /\ (main s <> MStart ->
      filter is_password_grant (trace s)
      = [CallPasswordGrant (Username (command w)) (Password (command w))])
  /\ (forall t ty v,
        main s = MGranted t ty v ->
        t = target /\ exchange = Ok {| TokenType := ty; AccessToken := v |})
  /\ (forall token,
        In token (saved (trace s)) ->
        exchange = Ok {| TokenType := Type_ token; AccessToken := Value token |})
  /\ (forall e,
        exchange = Err e ->
        main s = MStart \/ (main s = MReturned (Some e) /\ saved (trace s) = []))
  /\ (exists s1,
        step w AMain (init w) = Some s1
        /\ main s1 = match exchange with
                     | Ok token =>
                         MGranted target (TokenType token) (AccessToken token)
                     | Err e => MReturned (Some e)
                     end
        /\ trace s1
           = evs ++ [CallPasswordGrant (Username (command w))
                                       (Password (command w))]).
Proof.
  intros Hres Hu Hp Hrun exchange.
  assert (Hpw : password_supplied w = true).
  { unfold password_supplied, nonempty.
    apply String.eqb_neq in Hu. apply String.eqb_neq in Hp.
    rewrite Hu, Hp. reflexivity. }
  pose proof (run_invariant w (password_inv w target)
                (password_step w evs target Hres Hpw)
                sched (init w) s (password_init w target) Hrun)
    as (Hl & Hr & Hh & Hq & Hm).
  repeat apply conj; try assumption.
  - intros g. apply (existsb_false_not_In is_race_event); [exact Hq | reflexivity].
  - intros a. apply (existsb_false_not_In is_race_event); [exact Hq | reflexivity].
  - intros c m. apply (existsb_false_not_In is_race_event); [exact Hq | reflexivity].
  - intros Hne.
    destruct (main s) as [| | | | | t ty v | [e |] |]; try contradiction;
      apply Hm.
  - intros t ty v H.
    destruct (main s) as [| | | | | t0 ty0 v0 | [e |] |]; try contradiction;
      try discriminate H.
    injection H as <- <- <-. destruct Hm as (-> & Hex & _).
    split; [reflexivity | exact Hex].
  - intros token Hin.
    destruct (main s) as [| | | | | t ty v | [e |] |]; try contradiction.
    + rewrite Hm in Hin. contradiction.
    + destruct Hm as (_ & _ & _ & Hs). rewrite Hs in Hin. contradiction.
    + destruct Hm as (_ & [[_ Hs] | (ty & v & Hex & Hs)]); rewrite Hs in Hin.
      * contradiction.
      * destruct Hin as [<- | []]. exact Hex.
    + destruct Hm as (_ & ty & v & Hex & Hs). rewrite Hs in Hin.
      destruct Hin as [<- | []]. exact Hex.
  - intros e He.
    destruct (main s) as [| | | | | t ty v | [e' |] |]; try contradiction.
    + left. reflexivity.
    + exfalso. destruct Hm as (_ & Hex & _). unfold exchanged in Hex.
      fold exchange in Hex. congruence.
    + right. destruct Hm as (_ & [[He' Hs] | (ty & v & Hex & _)]).
      * fold exchange in He'. split; [congruence | exact Hs].
      * exfalso. unfold exchanged in Hex. fold exchange in Hex. congruence.
    + exfalso. destruct Hm as (_ & ty & v & Hex & _). unfold exchanged in Hex.
      fold exchange in Hex. congruence.
  - cbn [step]. unfold step_main. cbn [main init]. rewrite Hres, Hpw.
    unfold passwordGrant. fold exchange.
    destruct exchange as [token | e]; eexists; repeat split.
Qed.

(** The user [brock-samson] with a password: the exchange returns
    [{bearer, xyz}], which is saved, and no goroutine was started. *)
Lemma password_grant_skips_race_witness :
  exists s,
    run password_world [AMain; AMain] (init password_world) = Some s
    /\ main s = MReturned None
    /\ listener s = None /\ reader s = None
    /\ saved (trace s) = [{| Type_ := "bearer"; Value := "xyz" |}]
    /\ (forall g, ~ In (Go g) (trace s)).
Proof.
  destruct (run password_world [AMain; AMain] (init password_world))
    as [s |] eqn:E; [| vm_compute in E; discriminate E].
  exists s. split; [reflexivity |].
  destruct (password_grant_skips_race password_world
              [Stdout ("logging in to team 'main'" ++ nl ++ nl)%string]
              sample_target [AMain; AMain] s eq_refl
              ltac:(discriminate) ltac:(discriminate) E)
    as ((Hl & Hr & _) & Hg & _).
  assert (Hs : main s = MReturned None
               /\ saved (trace s) = [{| Type_ := "bearer"; Value := "xyz" |}]).
  { vm_compute in E. injection E as <-. split; reflexivity. }
  destruct Hs as [Hm Hs]. repeat apply conj; assumption.
Defined.

(* ================================================================= *)
(** ** Further properties of the login flow *)

Import FlowFacts.

(** *** The configuration and the choice of the grant *)

(** X1.  When the configuration of [Execute] does not resolve (no target
    name, the CA certificate cannot be read, the target cannot be built or
    loaded, arguments are left over, the validation fails), the first step
    of [Execute] returns that error, and in every run no goroutine is ever
    started, no handler exists, and the only effects are the read of the
    certificate file and text on standard output. *)
Theorem config_error_stops_everything
  (w : World) (e : error) (sched : list action) (s : State) :
  snd (resolve w) = Err e ->
  run w sched (init w) = Some s ->
  (main s = MStart \/ main s = MReturned (Some e))
  /\ listener s = None /\ reader s = None /\ handlers s = []
  /\ (forall ev, In ev (trace s) ->
        (exists path, ev = CallReadFile path) \/ (exists txt, ev = Stdout txt))
  /\ (exists s1, step w AMain (init w) = Some s1
                 /\ main s1 = MReturned (Some e)).
Proof.
  intros Hres Hrun.
  assert (Hi0 : config_failed_inv w e (init w)).
  { unfold config_failed_inv. cbn. auto 10. }
  pose proof (run_invariant w (config_failed_inv w e)
                (config_failed_step w e Hres) sched (init w) s Hi0 Hrun)
    as (Hl & Hr & Hh & Hm).
  repeat apply conj; auto.
  - destruct Hm as [[Hm _] | [Hm _]]; auto.
  - intros ev Hin. apply resolve_event_shape.
    destruct Hm as [[_ Ht] | [_ Ht]]; rewrite Ht in Hin; [contradiction |].
    pose proof (resolve_events w) as R. rewrite forallb_forall in R.
    exact (R ev Hin).
  - cbn [step]. unfold step_main. cbn [main init].
    destruct (resolve w) as [evs r]. cbn [snd] in Hres. subst r.
    eexists. split; reflexivity.
Qed.

(** Two arguments are left over: [Execute] returns
    [unexpected argument [extra, words]] and starts no listener. *)
Lemma config_error_stops_everything_witness :
  let w := {| Fly_Target := "ci"; Fly_Verbose := false;
              command := sample_command; args := ["extra"; "words"];
              DefaultTeamName := "main";
              ReadFile := fun _ => Err "open: no such file or directory";
              NewUnauthenticatedTarget := fun _ _ _ _ _ _ => Ok sample_target;
              LoadTargetWithInsecure := fun _ _ _ _ _ => Err "unknown target";
              SaveTarget := fun _ _ _ _ _ _ => None;
              net_Listen := Ok 45123%N;
              os_Stdin := [] |} in
  exists s,
    run w [AMain] (init w) = Some s
    /\ (main s = MStart
        \/ main s = MReturned (Some "unexpected argument [extra, words]"))
    /\ listener s = None.
Proof.
  intros w.
  destruct (run w [AMain] (init w)) as [s |] eqn:E;
    [| vm_compute in E; discriminate E].
  exists s. split; [reflexivity |].
  destruct (config_error_stops_everything w
              "unexpected argument [extra, words]" [AMain] s eq_refl E)
    as (Hm & Hl & _).
  split; assumption.
Defined.

(** X2.  With the user name or the password empty, [PasswordGrant] is
    never called, in any run; and when the configuration resolves, the
    first step of [Execute] is in [authCodeGrant], with the listener
    goroutine started on the URL of the target. *)
Theorem password_grant_needs_both
  (w : World) (sched : list action) (s : State) :
  Username (command w) = EmptyString \/ Password (command w) = EmptyString ->
  run w sched (init w) = Some s ->
  (forall u p, ~ In (CallPasswordGrant u p) (trace s))
  /\ (forall evs t,
        resolve w = (evs, Ok t) ->
        exists s1,
          step w AMain (init w) = Some s1
          /\ main s1 = MWaitPort t
          /\ listener s1 = Some (LStart (URL t))).
Proof.
  intros Hup Hrun.
  pose proof (not_supplied w Hup) as Hpw.
  pose proof (run_invariant w (fun s => filter is_password_grant (trace s) = [])
                (no_grant_step w Hpw) sched (init w) s eq_refl Hrun) as Hi.
  split.
  - intros u p Hin.
    assert (Hf : In (CallPasswordGrant u p) (filter is_password_grant (trace s)))
      by (apply filter_In; split; [exact Hin | reflexivity]).
    rewrite Hi in Hf. contradiction.
  - intros evs t Hres. cbn [step]. unfold step_main. cbn [main init].
    rewrite Hres, Hpw. eexists. repeat split.
Qed.

(** A user name without a password: the browser flow is taken. *)
Lemma password_grant_needs_both_witness :
  let w := {| Fly_Target := "ci"; Fly_Verbose := false;
              command := {| ATCURL := "https://ci.example.com";
                            Insecure := false;
                            Username := "brock-samson"; Password := "";
                            TeamName := ""; CACert := "" |};
              args := [];
              DefaultTeamName := "main";
              ReadFile := fun _ => Err "open: no such file or directory";
              NewUnauthenticatedTarget := fun _ _ _ _ _ _ => Ok sample_target;
              LoadTargetWithInsecure := fun _ _ _ _ _ => Err "unknown target";
              SaveTarget := fun _ _ _ _ _ _ => None;
              net_Listen := Ok 45123%N;
              os_Stdin := [] |} in
  exists s,
    run w [AMain; AListen] (init w) = Some s
    /\ (forall u p, ~ In (CallPasswordGrant u p) (trace s)).
Proof.
  intros w.
  destruct (run w [AMain; AListen] (init w)) as [s |] eqn:E;
    [| vm_compute in E; discriminate E].
  exists s. split; [reflexivity |].
  destruct (password_grant_needs_both w [AMain; AListen] s
              (or_intror eq_refl) E) as [H _].
  exact H.
Defined.

(** *** The goroutines of the browser flow *)

(** X3.  In every run the listener goroutine is started at most once,
    [net.Listen] is called at most once and only after that start, the
    port is received at most once and only after that call, and the reader
    goroutine is started at most once and only after the port was
    received. *)
Theorem each_start_happens_once
  (w : World) (sched : list action) (s : State) :
  run w sched (init w) = Some s ->
  how_many is_go_reader (trace s) <= how_many is_port_recv (trace s)
  /\ how_many is_port_recv (trace s) <= how_many is_listen (trace s)
  /\ how_many is_listen (trace s) <= how_many is_go_listener (trace s)
  /\ how_many is_go_listener (trace s) <= 1.
Proof.
  intros Hrun.
  pose proof (run_invariant w once_inv (once_step w) sched (init w) s
                (once_init w) Hrun) as Hi.
  unfold once_inv, starts in Hi. cbv zeta in Hi.
  destruct (listener s) as [[] |];
    repeat match goal with
           | H : _ \/ _ |- _ => destruct H
           | H : _ /\ _ |- _ => destruct H
           | H : (_, _, _, _) = (_, _, _, _) |- _ => injection H as ? ? ? ?
           end; lia.
Qed.

(** Up to the select, each of the four has happened once. *)
Lemma each_start_happens_once_witness :
  let w := sample_world (Ok 45123%N) [] in
  exists s,
    run w [AMain; AListen; ARecvPort; AMain; AReader; AReader] (init w) = Some s
    /\ how_many is_go_reader (trace s) <= 1
    /\ how_many is_port_recv (trace s) <= 1.
Proof.
  intros w.
  destruct (run w [AMain; AListen; ARecvPort; AMain; AReader; AReader] (init w))
    as [s |] eqn:E; [| vm_compute in E; discriminate E].
  exists s. split; [reflexivity |].
  destruct (each_start_happens_once w _ s E) as (H1 & H2 & H3 & H4).
  split; lia.
Defined.

(** X4.  An error that the select of [authCodeGrant] received was sent by
    the listener goroutine, never by the reader: the listener has
    returned, [Execute] has returned that very error, and nothing was
    saved. *)
Theorem select_error_comes_from_listener
  (w : World) (sched : list action) (s : State) (e : error) :
  run w sched (init w) = Some s ->
  In (Recv errorChannel e) (trace s) ->
  main s = MReturned (Some e)
  /\ listener s = Some LReturned
  /\ saved (trace s) = []
  /\ (forall e', reader s <> Some (RSendError e')).
Proof.
  intros Hrun Hin.
  pose proof (run_invariant w error_inv (error_step w) sched (init w) s
                (error_init w) Hrun) as (Hr & He & _).
  assert (Hf : In (Recv errorChannel e) (filter is_error_recv (trace s)))
    by (apply filter_In; split; [exact Hin | reflexivity]).
  destruct He as [He | (e0 & He & Hm & Hl & Hs)]; rewrite He in Hf.
  - contradiction.
  - destruct Hf as [Hf | []]. injection Hf as <-. auto.
Qed.

(** The server stops serving with an error: the select takes it from the
    listener and [Execute] returns it; nothing is saved. *)
Lemma select_error_comes_from_listener_witness :
  let w := sample_world (Ok 45123%N) [] in
  exists s,
    run w [AMain; AListen; ARecvPort; AMain;
           AServeReturn "accept tcp 127.0.0.1:45123: use of closed network connection";
           ASelectErrorListener] (init w) = Some s
    /\ main s
       = MReturned (Some "accept tcp 127.0.0.1:45123: use of closed network connection")
    /\ saved (trace s) = [].
Proof.
  intros w.
  destruct (run w [AMain; AListen; ARecvPort; AMain;
                   AServeReturn "accept tcp 127.0.0.1:45123: use of closed network connection";
                   ASelectErrorListener] (init w)) as [s |] eqn:E;
    [| vm_compute in E; discriminate E].
  exists s. split; [reflexivity |].
  assert (Hin : In (Recv errorChannel
                      "accept tcp 127.0.0.1:45123: use of closed network connection")
                   (trace s)).
  { vm_compute in E. injection E as <-. cbn. auto 20. }
  destruct (select_error_comes_from_listener w _ s _ E Hin) as (Hm & _ & Hs & _).
  split; assumption.
Defined.

(** *** The handlers of the callback *)

(** X5.  In every run at most one handler of a callback gets past its
    send on [tokenChannel], and at most one redirect is written.  Once the
    select has taken the line of the reader or an error, every handler is
    blocked in its send and no redirect was written: such a request is
    never answered. *)
Theorem at_most_one_callback_answered
  (w : World) (sched : list action) (s : State) :
  run w sched (init w) = Some s ->
  how_many (fun h => negb (is_HSend h)) (handlers s) <= 1
  /\ how_many is_redirect (trace s) <= 1
  /\ (forall msg,
        In (Recv stdinChannel msg) (trace s)
        \/ In (Recv errorChannel msg) (trace s) ->
        Forall (fun h => is_HSend h = true) (handlers s)
        /\ how_many is_redirect (trace s) = 0).
Proof.
  intros Hrun.
  pose proof (run_invariant w answered_inv (answered_step w) sched (init w) s
                (answered_init w) Hrun) as (Ha & Hd & Hle & _).
  assert (Hdone : how_many is_HDone (handlers s)
                  <= how_many (fun h => negb (is_HSend h)) (handlers s)).
  { unfold how_many. clear. induction (handlers s) as [| h l IH]; [cbn; lia |].
    cbn [filter]. destruct h; cbn [is_HDone is_HSend negb List.length]; lia. }
  repeat apply conj; try lia.
  intros msg Hin.
  assert (Ho : 1 <= how_many is_other_recv (trace s)).
  { destruct Hin as [Hin | Hin];
      exact (how_many_In is_other_recv _ _ Hin eq_refl). }
  split; [apply how_many_zero_Forall |]; lia.
Qed.

(** Two callbacks arrive; the select takes the second.  The first stays
    blocked in its send, which can no longer be received. *)
Lemma at_most_one_callback_answered_witness :
  let w := sample_world (Ok 45123%N) [] in
  let r1 := {| Form := [("token", "Bearer first")] |} in
  let r2 := {| Form := [("token", "Bearer second")] |} in
  exists s,
    run w [AMain; AListen; ARecvPort; AMain; AAccept r1; AAccept r2;
           ASelectToken 1; AHandler 1; AMain; AMain] (init w) = Some s
    /\ handlers s
       = [HSend "https://ci.example.com" "Bearer first";
          HDone {| StatusCode := 307;
                   Location := "https://ci.example.com/public/fly_success" |}]
    /\ how_many is_redirect (trace s) <= 1
    /\ step w (ASelectToken 0) s = None.
Proof.
  intros w r1 r2.
  destruct (run w [AMain; AListen; ARecvPort; AMain; AAccept r1; AAccept r2;
                   ASelectToken 1; AHandler 1; AMain; AMain] (init w))
    as [s |] eqn:E; [| vm_compute in E; discriminate E].
  exists s. split; [reflexivity |].
  destruct (at_most_one_callback_answered w _ s E) as (_ & Hr & _).
  assert (Hs : handlers s
               = [HSend "https://ci.example.com" "Bearer first";
                  HDone {| StatusCode := 307;
                           Location := "https://ci.example.com/public/fly_success" |}]
               /\ step w (ASelectToken 0) s = None).
  { vm_compute in E. injection E as <-. split; reflexivity. }
  destruct Hs as [Hh Hst]. repeat apply conj; assumption.
Defined.

(** X6.  Every reply that a handler has written, in any run, is the
    temporary redirect (307) to [<target URL>/public/fly_success], for the
    target that [Execute] resolved; whatever the request held. *)
Theorem every_answer_is_the_redirect
  (w : World) (sched : list action) (s : State) :
  run w sched (init w) = Some s ->
  (forall i resp,
      nth_error (handlers s) i = Some (HDone resp) ->
      exists t,
        snd (resolve w) = Ok t
        /\ resp = {| StatusCode := 307;
                     Location := (URL t ++ "/public/fly_success")%string |})
  /\ (forall url code,
        In (CallRedirect url code) (trace s) ->
        code = 307
        /\ exists t,
            snd (resolve w) = Ok t
            /\ url = (URL t ++ "/public/fly_success")%string).
Proof.
  intros Hrun.
  assert (H0 : consistent w (init w) /\ Forall (redirect_ok w) (trace (init w)))
    by (split; [apply consistent_init | constructor]).
  pose proof (run_invariant w
                (fun s => consistent w s /\ Forall (redirect_ok w) (trace s))
                (redirects_step w) sched (init w) s H0 Hrun) as [Hc Hf].
  destruct Hc as (_ & _ & Hh & _). split.
  - intros i resp E. pose proof (Forall_nth_error _ _ _ _ Hh E) as Hu.
    cbn [handler_ok] in Hu. destruct Hu as (u & (t & Ht & ->) & ->).
    exists t. split; [exact Ht | reflexivity].
  - intros url code Hin. rewrite Forall_forall in Hf.
    exact (Hf _ Hin).
Qed.

(** A request without a token is answered by the redirect to the success
    page of the sample target. *)
Lemma every_answer_is_the_redirect_witness :
  let w := sample_world (Ok 45123%N) [] in
  exists s,
    run w [AMain; AListen; ARecvPort; AMain;
           AAccept {| Form := [] |}; ASelectToken 0; AHandler 0] (init w)
    = Some s
    /\ nth_error (handlers s) 0
       = Some (HDone {| StatusCode := 307;
                        Location := "https://ci.example.com/public/fly_success" |}).
Proof.
  intros w.
  destruct (run w [AMain; AListen; ARecvPort; AMain;
                   AAccept {| Form := [] |}; ASelectToken 0; AHandler 0] (init w))
    as [s |] eqn:E; [| vm_compute in E; discriminate E].
  exists s. split; [reflexivity |].
  destruct (every_answer_is_the_redirect w _ s E) as [H _].
  assert (Hh : exists resp, nth_error (handlers s) 0 = Some (HDone resp)).
  { vm_compute in E. injection E as <-. eexists. reflexivity. }
  destruct Hh as [resp Hh]. destruct (H 0 resp Hh) as (t & Ht & ->).
  rewrite Hh. vm_compute in Ht. injection Ht as <-. reflexivity.
Defined.

(** *** The credential string and the reader *)

(** X7.  What [strings.SplitN(tokenStr, " ", 2)] and the two index
    accesses of [authCodeGrant] give, for every string: the pair [(a, b)]
    exactly when [a] holds no space and the string is [a], a space, [b];
    and the panic exactly when the string holds no space. *)
Theorem split_token_spec (s : string) :
  (forall a b,
      split_token s = Some (a, b)
      <-> no_space a = true /\ s = (a ++ " " ++ b)%string)
  /\ (split_token s = None <-> no_space s = true).
Proof.
  split; [intros a b; apply split_token_spec_Some |].
  split.
  - intros H. destruct (no_space s) eqn:Hs; [reflexivity |].
    destruct (first_space s Hs) as (a' & b' & Ha' & ->).
    rewrite (split_token_first_space a' b' Ha') in H. discriminate H.
  - apply split_token_no_space.
Qed.

(** X8.  Whatever the line, a string that [waitForTokenInput] sends is
    [tokenType + " " + tokenValue] with both parts non-empty and without a
    space, and the split of [authCodeGrant] gives these two parts back: a
    string from the reader cannot make [segments[1]] panic. *)
Theorem manual_token_round_trip
  (inp : list rune) (evs : list Event) (tokenStr : string) (left : list rune) :
  forallb is_rune inp = true ->
  waitForTokenInput_turn inp = (evs, RSendToken tokenStr, left) ->
  exists ty v,
    tokenStr = (ty ++ " " ++ v)%string
    /\ ty <> EmptyString /\ v <> EmptyString
    /\ no_space ty = true /\ no_space v = true
    /\ split_token tokenStr = Some (ty, v).
Proof.
  intros Hr. unfold waitForTokenInput_turn.
  destruct (err (Scanf inp)) as [e |] eqn:He.
  - destruct (negb _); discriminate.
  - intros H. injection H as _ <- _.
    destruct (Scanf_success inp He)
      as (p1 & k & p2 & v & p3 & E & Hk & Hv & Fk & Fv & -> & ->).
    rewrite E in Hr. rewrite !forallb_app in Hr.
    apply andb_true_iff in Hr as [_ Hr]. apply andb_true_iff in Hr as [Rk Hr].
    apply andb_true_iff in Hr as [_ Hr]. apply andb_true_iff in Hr as [Rv _].
    pose proof (word_no_space k (forallb_token_rune k Rk Fk)) as Nk.
    pose proof (word_no_space v (forallb_token_rune v Rv Fv)) as Nv.
    exists (string_of_runes k), (string_of_runes v).
    repeat apply conj; auto using string_of_runes_nonempty.
    apply split_token_first_space. exact Nk.
Qed.

(** The line [x y]. *)
Lemma manual_token_round_trip_witness :
  exists ty v,
    "x y"%string = (ty ++ " " ++ v)%string
    /\ ty <> EmptyString /\ v <> EmptyString
    /\ no_space ty = true /\ no_space v = true
    /\ split_token "x y" = Some (ty, v).
Proof.
  exact (manual_token_round_trip
           (runes_of_string ("   x" ++ String (ascii_of_nat 9) "y z" ++ nl))
           [Stdout prompt] "x y" (runes_of_string ("z" ++ nl))
           eq_refl eq_refl).
Defined.

(** X9.  From the head of its loop the reader, left to run, settles
    within as many turns as there are runes on standard input: either it
    holds a token to send, or standard input is used up and it is at the
    head of its loop.  Each turn before that consumed input; the other
    goroutines are where they were. *)
Theorem reader_settles (w : World) (s : State) :
  reader s = Some RLoop ->
  exists k s',
    k <= List.length (stdin s)
    /\ run w (repeat AReader k) s = Some s'
    /\ ((exists t, reader s' = Some (RSendToken t))
        \/ (reader s' = Some RLoop /\ stdin s' = []))
    /\ main s' = main s /\ listener s' = listener s
    /\ handlers s' = handlers s.
Proof.
  remember (List.length (stdin s)) as n eqn:En.
  assert (Hn : List.length (stdin s) <= n) by lia. clear En.
  revert s Hn. induction n as [| n IH]; intros s Hn Hr.
  - exists 0, s. destruct (stdin s) eqn:E; [| cbn in Hn; lia].
    repeat apply conj; auto.
  - destruct (stdin s) as [| r l] eqn:E.
    + exists 0, s. repeat apply conj; auto; lia.
    + assert (Hne : stdin s <> []) by (rewrite E; discriminate).
      pose proof (turn_consumes (stdin s) Hne) as Hc.
      pose proof (turn_pc (stdin s)) as Hpc.
      destruct (waitForTokenInput_turn (stdin s)) as [[evs pc] inp'] eqn:Et.
      cbn [fst snd] in Hc, Hpc.
      set (s1 := set_reader (Some pc) (set_stdin inp' (emit evs s))).
      assert (Hstep : step w AReader s = Some s1).
      { cbn [step]. rewrite Hr, Et. reflexivity. }
      destruct Hpc as [-> | [t ->]].
      * destruct (IH s1) as (k & s' & Hk & Hrun & Hfin & Hm & Hl & Hh).
        -- subst s1. proj. rewrite E in Hc. cbn [List.length] in *. lia.
        -- reflexivity.
        -- exists (S k), s'. cbn [repeat run]. rewrite Hstep.
           repeat apply conj; auto.
           subst s1. proj. rewrite E in Hc. cbn [List.length] in *. lia.
      * exists 1, s1. cbn [repeat run]. rewrite Hstep.
        repeat apply conj; auto.
        -- cbn [List.length]. lia.
        -- left. exists t. reflexivity.
Qed.

(** A line with one token and a last line without its newline: the
    reader uses up standard input without a token to send. *)
Lemma reader_settles_witness :
  let s := mk_state MStart None (Some RLoop) []
             (runes_of_string ("Bearer" ++ nl ++ "oops")) [] in
  exists k s',
    k <= 11
    /\ run (sample_world (Ok 45123%N) []) (repeat AReader k) s = Some s'
    /\ ((exists t, reader s' = Some (RSendToken t))
        \/ (reader s' = Some RLoop /\ stdin s' = [])).
Proof.
  intros s.
  destruct (reader_settles (sample_world (Ok 45123%N) []) s eq_refl)
    as (k & s' & Hk & Hrun & Hfin & _).
  exists k, s'. repeat apply conj; assumption.
Defined.

(** X10.  Any number of lines with no token or one token, then a line
    with two: the reader prints the prompt and the format hint once for
    each of the former, then the prompt once more, and holds the two
    tokens joined by a space to send; standard input is consumed up to
    and including the rune that ended the second token. *)
Theorem malformed_lines_then_token
  (w : World) (s : State) (lines : list (list rune))
  (sp1 k sp2 v tail : list rune) :
  reader s = Some RLoop ->
  Forall malformed lines ->
  forallb blank sp1 = true -> wordb k = true ->
  sp2 <> [] -> forallb blank sp2 = true -> wordb v = true ->
  stops tail = true ->
  stdin s = with_newlines lines ++ sp1 ++ k ++ sp2 ++ v ++ tail ->
  exists s',
    run w (repeat AReader (List.length lines) ++ [AReader]) s = Some s'
    /\ reader s'
       = Some (RSendToken (string_of_runes k ++ " " ++ string_of_runes v)%string)
    /\ trace s' = trace s ++ hints lines ++ [Stdout prompt]
    /\ stdin s' = tl tail
    /\ main s' = main s.
Proof.
  intros Hr Hl H1 Hk Hne H2 Hv Ht Hs.
  rewrite run_app.
  rewrite (malformed_lines_reprompt w lines Hl s _ Hr Hs).
  cbn [run step]. proj. rewrite Hr.
  rewrite (turn_two_tokens sp1 k sp2 v tail H1 Hk Hne H2 Hv Ht).
  eexists. split; [reflexivity |]. proj.
  repeat apply conj; try reflexivity. now rewrite <- app_assoc.
Qed.

(** An empty line, a line with one token, then [Bearer abc]. *)
Lemma malformed_lines_then_token_witness :
  let s := mk_state MStart None (Some RLoop) []
             (runes_of_string (nl ++ "Bearer" ++ nl ++ "Bearer abc" ++ nl)) [] in
  exists s',
    run (sample_world (Ok 45123%N) []) [AReader; AReader; AReader] s = Some s'
    /\ reader s' = Some (RSendToken "Bearer abc")
    /\ trace s' = [Stdout prompt; Stdout format_hint;
                   Stdout prompt; Stdout format_hint; Stdout prompt].
Proof.
  intros s.
  destruct (malformed_lines_then_token (sample_world (Ok 45123%N) []) s
              [[]; runes_of_string "Bearer"]
              [] (runes_of_string "Bearer") [32%Z] (runes_of_string "abc") [10%Z]
              eq_refl
              (Forall_cons _ (no_token [] eq_refl)
                 (Forall_cons _
                    (one_token [] (runes_of_string "Bearer") [] eq_refl eq_refl
                       eq_refl)
                    (Forall_nil _)))
              eq_refl eq_refl ltac:(discriminate) eq_refl eq_refl eq_refl eq_refl)
    as (s' & Hrun & Hr & Ht & _).
  exists s'. repeat apply conj; assumption.
Defined.

(** X11.  The reader goroutine returns only by its send on
    [stdinChannel] being received: in every run in which it has returned,
    the select took its line. *)
Theorem reader_returns_only_after_send
  (w : World) (sched : list action) (s : State) :
  run w sched (init w) = Some s ->
  reader s = Some RReturned ->
  exists tokenStr, In (Recv stdinChannel tokenStr) (trace s).
Proof.
  intros Hrun Hr.
  assert (H0 : error_inv (init w)
               /\ (reader (init w) = Some RReturned ->
                   existsb is_stdin_recv (trace (init w)) = true)).
  { split; [apply error_init | discriminate]. }
  pose proof (run_invariant w
                (fun s => error_inv s
                          /\ (reader s = Some RReturned ->
                              existsb is_stdin_recv (trace s) = true))
                (returned_step w) sched (init w) s H0 Hrun) as [_ Hi].
  specialize (Hi Hr). apply existsb_exists in Hi as (ev & Hin & Hev).
  destruct ev; try discriminate Hev.
  match type of Hin with
  | In (Recv ?c ?msg) _ => destruct c; try discriminate Hev; exists msg; exact Hin
  end.
Qed.

(** The select takes the line of the reader, which returns. *)
Lemma reader_returns_only_after_send_witness :
  let w := sample_world (Ok 45123%N)
             (runes_of_string ("bearer mytoken123" ++ nl)) in
  exists s,
    run w [AMain; AListen; ARecvPort; AMain; AReader; ASelectStdin] (init w)
    = Some s
    /\ reader s = Some RReturned
    /\ exists tokenStr, In (Recv stdinChannel tokenStr) (trace s).
Proof.
  intros w.
  destruct (run w [AMain; AListen; ARecvPort; AMain; AReader; ASelectStdin]
              (init w)) as [s |] eqn:E; [| vm_compute in E; discriminate E].
  exists s. split; [reflexivity |].
  assert (Hr : reader s = Some RReturned)
    by (vm_compute in E; injection E as <-; reflexivity).
  split; [exact Hr |].
  exact (reader_returns_only_after_send w _ s E Hr).
Defined.

(** *** Saving the target *)

(** X12.  Every call of [rc.SaveTarget], in any run, is made with the
    name of the target, the URL, the team name and the CA certificate of
    the resolved target and the insecure flag of the command, and its
    result is what [Execute] has returned.  [target saved] is printed
    exactly when [Execute] has returned without an error. *)
Theorem saveTarget_record_and_result
  (w : World) (sched : list action) (s : State) :
  run w sched (init w) = Some s ->
  (forall name url insecure team token caCert,
      In (CallSaveTarget name url insecure team token caCert) (trace s) ->
      exists t,
        snd (resolve w) = Ok t
        /\ name = Fly_Target w /\ url = URL t
        /\ insecure = Insecure (command w)
        /\ team = Team_Name t /\ caCert = Target_CACert t
        /\ main s
           = MReturned (SaveTarget w name url insecure team token caCert))
  /\ (In (Stdout ("target saved" ++ nl)%string) (trace s)
      <-> main s = MReturned None).
Proof.
  intros Hrun.
  assert (H0 : consistent w (init w) /\ save_inv w (init w)).
  { split; [apply consistent_init |]. unfold save_inv. cbn. auto. }
  pose proof (run_invariant w (fun s => consistent w s /\ save_inv w s)
                (save_step w) sched (init w) s H0 Hrun) as [_ Hi].
  unfold save_inv in Hi. cbv zeta in Hi. split.
  - intros name url insecure team token caCert Hin.
    assert (Hf : In (CallSaveTarget name url insecure team token caCert)
                    (filter is_save (trace s)))
      by (apply filter_In; split; [exact Hin | reflexivity]).
    destruct (main s) as [| | | | | | r |];
      try (destruct Hi as [Hi _]; rewrite Hi in Hf; contradiction).
    destruct Hi as [[Hi _] | (t & tok & Ht & Hi & Hr & _)]; rewrite Hi in Hf.
    + contradiction.
    + destruct Hf as [Hf | []]. unfold save_call in Hf.
      injection Hf as <- <- <- <- <- <-.
      exists t. repeat apply conj; auto. rewrite Hr. reflexivity.
  - rewrite <- existsb_saved_text.
    destruct (main s) as [| | | | | | r |];
      try (destruct Hi as [_ Hi]; rewrite Hi; split; discriminate).
    destruct Hi as [(_ & Hi & Hr) | (t & tok & _ & _ & _ & Hi)]; rewrite Hi.
    + split; [discriminate | congruence].
    + destruct r; split; try discriminate; auto.
Qed.

(** The token is typed in and saved: [Execute] returns no error and
    [target saved] was printed. *)
Lemma saveTarget_record_and_result_witness :
  let w := sample_world (Ok 45123%N)
             (runes_of_string ("bearer mytoken123" ++ nl)) in
  exists s,
    run w [AMain; AListen; ARecvPort; AMain; AReader; ASelectStdin; AMain; AMain]
      (init w) = Some s
    /\ In (Stdout ("target saved" ++ nl)%string) (trace s)
    /\ main s = MReturned None.
Proof.
  intros w.
  destruct (run w [AMain; AListen; ARecvPort; AMain; AReader; ASelectStdin;
                   AMain; AMain] (init w)) as [s |] eqn:E;
    [| vm_compute in E; discriminate E].
  exists s. split; [reflexivity |].
  destruct (saveTarget_record_and_result w _ s E) as [_ H].
  assert (Hm : main s = MReturned None)
    by (vm_compute in E; injection E as <-; reflexivity).
  split; [apply H; exact Hm | exact Hm].
Defined.

(** *** From the start to the saved target *)

(** X13.  The browser flow with a token typed in, from the start of
    [Execute] to its return: with a configuration that resolves, no
    password grant, a listener that binds and a first line with two
    tokens, the schedule below runs to the return of [Execute] with the
    result of [rc.SaveTarget] on the two tokens; that token is the only one
    saved, no handler exists and the reader has returned. *)
Theorem manual_login_end_to_end
  (w : World) (evs : list Event) (t : Target) (n : N)
  (sp1 k sp2 v tail : list rune) :
  resolve w = (evs, Ok t) ->
  Username (command w) = EmptyString \/ Password (command w) = EmptyString ->
  net_Listen w = Ok n ->
  os_Stdin w = sp1 ++ k ++ sp2 ++ v ++ tail ->
  forallb blank sp1 = true -> wordb k = true ->
  sp2 <> [] -> forallb blank sp2 = true -> wordb v = true ->
  stops tail = true ->
  let token := {| Type_ := string_of_runes k; Value := string_of_runes v |} in
  exists s,
    run w [AMain; AListen; ARecvPort; AMain; AReader; ASelectStdin; AMain; AMain]
      (init w) = Some s
    /\ main s
       = MReturned (SaveTarget w (Fly_Target w) (URL t) (Insecure (command w))
                      (Team_Name t) token (Target_CACert t))
    /\ saved (trace s) = [token]
    /\ handlers s = []
    /\ reader s = Some RReturned.
Proof.
  intros Hres Hpw Hn Hin H1 Hk Hne H2 Hv Ht token.
  change [AMain; AListen; ARecvPort; AMain; AReader; ASelectStdin; AMain; AMain]
    with ([AMain; AListen; ARecvPort; AMain]
          ++ [AReader; ASelectStdin; AMain; AMain]).
  rewrite run_app, (handshake w evs t n Hres (not_supplied w Hpw) Hn).
  cbn [run step]. proj. rewrite Hin.
  rewrite (turn_two_tokens sp1 k sp2 v tail H1 Hk Hne H2 Hv Ht).
  proj. unfold step_main. proj.
  rewrite (split_token_first_space _ _ (word_no_space k (wordb_forallb k Hk))).
  proj. unfold save. fold token.
  pose proof (resolve_counts w) as (_ & R & _). rewrite Hres in R. cbn [fst] in R.
  destruct (SaveTarget w (Fly_Target w) (URL t) (Insecure (command w))
              (Team_Name t) token (Target_CACert t)) as [e |];
    eexists; (split; [reflexivity |]); proj;
    repeat apply conj; try reflexivity;
    rewrite !saved_app, R; reflexivity.
Qed.

(** The line [bearer mytoken123] is typed: the target is saved with it. *)
Lemma manual_login_end_to_end_witness :
  let w := sample_world (Ok 45123%N)
             (runes_of_string ("bearer mytoken123" ++ nl)) in
  exists s,
    run w [AMain; AListen; ARecvPort; AMain; AReader; ASelectStdin; AMain; AMain]
      (init w) = Some s
    /\ main s = MReturned None
    /\ saved (trace s) = [{| Type_ := "bearer"; Value := "mytoken123" |}].
Proof.
  intros w.
  destruct (manual_login_end_to_end w
              [Stdout ("logging in to team 'main'" ++ nl ++ nl)%string]
              sample_target 45123%N
              [] (runes_of_string "bearer") [32%Z]
              (runes_of_string "mytoken123") [10%Z]
              eq_refl (or_introl eq_refl) eq_refl eq_refl
              eq_refl eq_refl ltac:(discriminate) eq_refl eq_refl eq_refl)
    as (s & Hrun & Hm & Hs & _).
  exists s. repeat apply conj; [exact Hrun | exact Hm | exact Hs].
Defined.
